(** * jitdash: a shallow embedding of the Jenkins sparkline dashboard

    The repository holds two snapshots of one Go program: [src/jitdash.go]
    and [src/unnamed/part_000].  They share the JSON accessors, the [Build]
    type, [FetchDetails], [BuildSorter] and [RenderHistory]; they differ in
    [ProcessJobObject], [FetchJobs] and [main].  The shared code is embedded
    once at top level, the differing functions in the modules [Jitdash] and
    [Part000].

    Conventions.
    - Go's [int] and [int64] are [Z] with the two's-complement wrap-around
      written out ([wrap64]).
    - Go's [float64] is IEEE 754 binary64, taken from the Standard Library's
      [SpecFloat] at precision 53 and exponent bound 1024.
    - A decoded JSON value ([interface{}]) is the inductive [Json]; a
      [map[string]interface{}] is a [gmap string Json].
    - [http.Get] followed by [json.Decoder.Decode] is a function from the URL
      to a [Fetched] outcome.
    - A run-time panic (slice bounds, index out of range) is [Panic]. *)

From Stdlib Require Import ZArith Reals Lra Lia Bool String Ascii List.
From Stdlib Require Import Sorted Permutation.
From Stdlib Require Import Floats.SpecFloat Decimal DecimalString DecimalPos DecimalZ.
From stdpp Require Import base option list gmap strings sorting.

Local Open Scope Z_scope.

(** ** Machine integers *)

Definition int64_min : Z := - 2 ^ 63.
Definition int64_max : Z := 2 ^ 63 - 1.

Definition in_int64 (z : Z) : bool := (int64_min <=? z) && (z <=? int64_max).

(** Two's-complement reduction of an integer result to 64 bits. *)
Definition wrap64 (z : Z) : Z := (z + 2 ^ 63) mod 2 ^ 64 - 2 ^ 63.

(** ** float64 *)

Definition prec : Z := 53.
Definition emax : Z := 1024.

Definition float64 : Type := spec_float.

(** [float64(n)] for an integer [n]: the nearest binary64 value, ties to
    even. *)
Definition float64_of_int64 (n : Z) : float64 := binary_normalize prec emax n 0 false.

Definition fdiv (x y : float64) : float64 := SFdiv prec emax x y.
Definition fmul (x y : float64) : float64 := SFmul prec emax x y.

(** The integer part of a finite float, rounded toward zero. *)
Definition ftrunc (v : float64) : option Z :=
  match v with
  | S754_zero _ => Some 0
  | S754_finite s m e => Some (cond_Zopp s (Z.shiftl (Z.pos m) e))
  | S754_infinity _ | S754_nan => None
  end.

(** [int64(v)] for a float [v].  Go truncates toward zero when the result
    fits; when it does not (or [v] is an infinity or a NaN) the result is
    implementation-defined, and on amd64 it is the "integer indefinite"
    value [0x8000000000000000]. *)
Definition int64_of_float64 (v : float64) : Z :=
  match ftrunc v with
  | Some t => if in_int64 t then t else int64_min
  | None => int64_min
  end.

(** ** strconv.ParseInt(s, 10, 64)

    The Go standard library is not part of the repository; [ParseInt] follows
    its documented behaviour for base 10 and 64 bits: an optional sign, then a
    non-empty run of decimal digits; anything else is a syntax error, a value
    outside [int64] a range error.  Both errors are [None]. *)

Definition digit_of_ascii (c : ascii) : option Z :=
  let n := Z.of_nat (nat_of_ascii c) in
  if (48 <=? n) && (n <=? 57) then Some (n - 48) else None.

Fixpoint ParseUint_loop (s : string) (n : Z) : option Z :=
  match s with
  | EmptyString => Some n
  | String c s' =>
      match digit_of_ascii c with
      | Some d => ParseUint_loop s' (n * 10 + d)
      | None => None
      end
  end.

Definition ParseUint (s : string) : option Z :=
  match s with
  | EmptyString => None
  | _ => ParseUint_loop s 0
  end.

Definition ParseInt (s : string) : option Z :=
  match s with
  | EmptyString => None
  | String c s' =>
      let '(neg, digits) :=
        if Ascii.eqb c "+" then (false, s')
        else if Ascii.eqb c "-" then (true, s')
        else (false, s) in
      match ParseUint digits with
      | None => None
      | Some un =>
          let cutoff := 2 ^ 63 in
          if negb neg && (cutoff <=? un) then None
          else if neg && (cutoff <? un) then None
          else Some (if neg then - un else un)
      end
  end.

(** The decimal literal of an integer, as [fmt]'s [%d] prints it and as a
    JSON document spells it. *)
Definition decimal (n : Z) : string := NilZero.string_of_int (Z.to_int n).

(** ** Decoded JSON *)

#[warnings="-register-all"]
Inductive Json : Type :=
  | JNull
  | JBool (b : bool)
  | JFloat (v : float64)
  | JNumber (s : string)
  | JString (s : string)
  | JArray (a : list Json)
  | JObject (o : gmap string Json).

Abbreviation JsonObject := (gmap string Json) (only parsing).

Definition AsJsonObject (i : Json) : option JsonObject :=
  match i with
  | JObject o => Some o
  | _ => None
  end.

Definition GetString (o : JsonObject) (key : string) : string * bool :=
  match o !! key with
  | Some (JString strVal) => (strVal, true)
  | _ => (EmptyString, false)
  end.

(** [json.Number.Int64] is [strconv.ParseInt(string(n), 10, 64)]. *)
Definition Number_Int64 (v : string) : option Z := ParseInt v.

Definition GetInt64 (o : JsonObject) (key : string) : Z * bool :=
  match o !! key with
  | Some (JNumber v) =>
      match Number_Int64 v with
      | Some i64 => (i64, true)
      | None => (0, false)
      end
  | Some (JFloat v) => (int64_of_float64 v, true)
  | _ => (0, false)
  end.

Definition GetBool (o : JsonObject) (key : string) : bool * bool :=
  match o !! key with
  | Some (JBool bVal) => (bVal, true)
  | _ => (false, false)
  end.

Definition GetObject (o : JsonObject) (key : string) : option JsonObject :=
  match o !! key with
  | Some val => AsJsonObject val
  | None => None
  end.

Definition GetArray (o : JsonObject) (key : string) : option (list Json) :=
  match o !! key with
  | Some (JArray aVal) => Some aVal
  | _ => None
  end.

(** ** The domain model *)

(** A compiled [*regexp.Regexp] is used only through [MatchString]; it is
    modelled by that function. *)
Definition Regexp : Type := string -> bool.

Record Instance := mkInstance {
  Name : string;
  Folders : list string;
  Exclude : list Regexp
}.

(** [Timestamp] is a [time.Time] in UTC with whole seconds: the number of
    seconds since January 1 of year 1, so that Go's zero [time.Time] is 0. *)
Record Build := mkBuild {
  Id : Z;
  Url : string;
  Timestamp : Z;
  Failures : Z;
  Complete : bool
}.

(** The fields [Name] and [Url] of a [Job] are [JobName] and [JobUrl] here:
    [Instance] and [Build] already have fields of those names. *)
Record Job := mkJob {
  JobName : string;
  JobUrl : string;
  Builds : list Build
}.

(** Seconds between year 1 and the Unix epoch. *)
Definition unixToInternal : Z := 62135596800.

(** [time.Unix(sec, 0).UTC()] *)
Definition time_Unix (sec : Z) : Z := wrap64 (sec + unixToInternal).

(** [&Build{Id: id, Url: url}]: every other field has its zero value. *)
Definition stub (id : Z) (url : string) : Build := mkBuild id url 0 0 false.

Definition ProcessBuildObject (buildIf : Json) : option Build :=
  match AsJsonObject buildIf with
  | None => None
  | Some build =>
      let '(class, ok) := GetString build "_class" in
      if negb ok || negb (String.eqb class "hudson.model.FreeStyleBuild") then None
      else
        let '(id, ok) := GetInt64 build "number" in
        if negb ok then None
        else
          let '(url, ok) := GetString build "url" in
          if negb ok then None
          else Some (stub id url)
  end.

(** ** The transport *)

(** What [http.Get(url)] followed by [json.NewDecoder(r.Body).Decode(&o)]
    into a [JsonObject] gives: a transport error, a decoding error, or the
    decoded object. *)
Inductive Fetched :=
  | NetError
  | DecodeError
  | Decoded (o : JsonObject).

Definition Transport : Type := string -> Fetched.

Inductive error :=
  | netError
  | decodeError
  | missingResultError
  | missingTimestampError.

(** ** FetchDetails *)

(** One turn of the loop over [actions]; [failures] is the variable the loop
    overwrites. *)
Definition scanAction (failures : Z) (a : Json) : Z :=
  match AsJsonObject a with
  | None => failures
  | Some action =>
      let '(class, ok) := GetString action "_class" in
      if negb ok || negb (String.eqb class "hudson.tasks.junit.TestResultAction")
      then failures
      else fst (GetInt64 action "failCount")
  end.

(** The value of [failures] when the loop over [actions] is left. *)
Definition scanActions (details : JsonObject) : Z :=
  match GetArray details "actions" with
  | Some actions => fold_left scanAction actions 0
  | None => 0
  end.

(** [b.FetchDetails()]: the build after the call and the error returned. *)
Definition FetchDetails (http : Transport) (b : Build) : Build * option error :=
  match http (Url b +:+ "api/json") with
  | NetError => (b, Some netError)
  | DecodeError => (b, Some decodeError)
  | Decoded details =>
      let '(result, ok) := GetString details "result" in
      if negb ok then (b, Some missingResultError)
      else
        let '(unixMilliseconds, ok) := GetInt64 details "timestamp" in
        if negb ok then (b, Some missingTimestampError)
        else
          let b := mkBuild (Id b) (Url b) (time_Unix (Z.quot unixMilliseconds 1000))
                           (Failures b) (Complete b) in
          let '(building, ok) := GetBool details "building" in
          let building := if ok then building else String.eqb result "" in
          let b := mkBuild (Id b) (Url b) (Timestamp b) (Failures b) (negb building) in
          let failures := scanActions details in
          let failures :=
            if (failures =? 0) && String.eqb result "FAILURE" then -1 else failures in
          (mkBuild (Id b) (Url b) (Timestamp b) failures (Complete b), None)
  end.

(** ** Sorting *)

(** Go's [sort.Interface]. *)
Class Interface (S : Type) := {
  Len : S -> nat;
  Less : S -> nat -> nat -> bool;
  Swap : S -> nat -> nat -> S
}.

(** [type BuildSorter []*Build] with its three methods.  An index outside
    the slice never reaches them from [sort.Sort]; there [Less] is [false]
    and [Swap] leaves the slice as it is. *)
#[export] Instance BuildSorter : Interface (list Build) := {
  Len s := length s;
  Less s i j :=
    match s !! i, s !! j with
    | Some x, Some y => Id x <? Id y
    | _, _ => false
    end;
  Swap s i j :=
    match s !! i, s !! j with
    | Some x, Some y => <[i := y]> (<[j := x]> s)
    | _, _ => s
    end
}.

Section Sort.
Context {S : Type} `{Interface S}.

(** The inner loop of the library's [insertionSort]:
    [for j := i; j > 0 && data.Less(j, j-1); j-- { data.Swap(j, j-1) }]. *)
Fixpoint sift (data : S) (j : nat) : S :=
  match j with
  | O => data
  | Datatypes.S j' => if Less data j j' then sift (Swap data j j') j' else data
  end.

(** [for i := 1; i < n; i++ { inner loop }], as the list of the values
    [i] takes. *)
Definition insertionSort (data : S) (n : nat) : S :=
  fold_left sift (seq 1 (n - 1)) data.

(** [sort.Sort(data)].  The library is not part of the repository; it is
    modelled by its own insertion sort, the routine it runs on short
    slices, driven through [Len], [Less] and [Swap]. *)
Definition sort_Sort (data : S) : S := insertionSort data (Len data).
End Sort.

(** ** Truncation to the retention window *)

Inductive result (A : Type) :=
  | Panic
  | Ret (a : A).
Arguments Panic {A}.
Arguments Ret {A} a.

#[export] Instance result_ret : MRet result := fun _ a => Ret a.

#[export] Instance result_bind : MBind result := fun _ _ k m =>
  match m with
  | Panic => Panic
  | Ret a => k a
  end.

(** The slice expression [s[low:]]: it panics unless [0 <= low <= len(s)]. *)
Definition slice_from {A : Type} (s : list A) (low : Z) : result (list A) :=
  if (0 <=? low) && (low <=? Z.of_nat (length s))
  then Ret (drop (Z.to_nat low) s)
  else Panic.

(** [if len(builds) > maxBuilds { builds = builds[len(builds)-maxBuilds:] }] *)
Definition truncate (builds : list Build) (maxBuilds : Z) : result (list Build) :=
  let len := Z.of_nat (length builds) in
  if len >? maxBuilds then slice_from builds (wrap64 (len - maxBuilds))
  else Ret builds.

(** ** RenderHistory *)

Definition sparks : list string :=
  ["▁"; "▂"; "▃"; "▄"; "▅"; "▆"; "▇"; "█"].

Definition len_sparks : Z := Z.of_nat (length sparks).

(** [sparks[i]] *)
Definition spark_at (i : Z) : result string :=
  if i <? 0 then Panic
  else match sparks !! Z.to_nat i with
       | Some g => Ret g
       | None => Panic
       end.

(** The first loop,
    [for ; count > len(job.Builds); count-- { printf("%c", sparks[0]) }]:
    it prints [sparks[0]] [count - len] times when that is positive, and
    leaves [count] at the smaller of [count] and [len]. *)
Definition padding (count len : Z) : list string * Z :=
  (replicate (Z.to_nat (count - len)) (default "" (sparks !! 0%nat)), Z.min count len).

(** [start := len(job.Builds) - count], an [int] subtraction, once the
    first loop has brought [count] down to [len(job.Builds)] at most.  For
    a [count] of [len - 2^63] or less the difference passes [2^63 - 1] and
    wraps to a negative [start]. *)
Definition start (builds : list Build) (count : Z) : Z :=
  let len := Z.of_nat (length builds) in
  wrap64 (len - snd (padding count len)).

(** The builds the two loops [for i := start; i < len(job.Builds); i++]
    read, [job.Builds[start]] onwards.  With a negative [start] the first
    [job.Builds[i]] panics before any build is read. *)
Definition window (builds : list Build) (count : Z) : list Build :=
  if start builds count <? 0 then []
  else drop (Z.to_nat (start builds count)) builds.

(** The second loop: the scan for [max]. *)
Definition scanMax (max : Z) (b : Build) : Z :=
  if Failures b >? max then Failures b else max.

Definition windowMax (builds : list Build) (count : Z) : Z :=
  fold_left scanMax (window builds count) 0.

(** [1 + int(percentile * float64(len(sparks) - 2))] with
    [percentile := float64(f) / float64(max)]. *)
Definition sparkIndex (f max : Z) : Z :=
  let percentile := fdiv (float64_of_int64 f) (float64_of_int64 max) in
  wrap64 (1 + int64_of_float64 (fmul percentile (float64_of_int64 (len_sparks - 2)))).

(** The index into [sparks] the [switch] on [build.Failures] selects. *)
Definition glyphIndex (f max : Z) : Z :=
  if f =? 0 then 0
  else if f =? -1 then len_sparks - 1
  else sparkIndex f max.

Definition title_of (f : Z) : string :=
  if f =? 0 then "Passed"
  else if f =? -1 then "Failed"
  else decimal f +:+ " failures".

Definition quote : string := String (ascii_of_nat 34) EmptyString.

(** [printf("<a href=\"%s\" title=\"%s: %s\">%c</a>", build.Url, title,
    build.Url, spark)] *)
Definition anchor (url title spark : string) : string :=
  "<a href=" +:+ quote +:+ url +:+ quote +:+ " title=" +:+ quote +:+
  title +:+ ": " +:+ url +:+ quote +:+ ">" +:+ spark +:+ "</a>".

(** One turn of the third loop. *)
Definition renderBuild (max : Z) (build : Build) : result string :=
  if Complete build then
    spark ← spark_at (glyphIndex (Failures build) max);
    Ret (anchor (Url build) (title_of (Failures build)) spark)
  else Ret (anchor (Url build) "building" "B").

Fixpoint renderAll (max : Z) (builds : list Build) : result (list string) :=
  match builds with
  | [] => Ret []
  | build :: rest =>
      s ← renderBuild max build;
      ss ← renderAll max rest;
      Ret (s :: ss)
  end.

(** A negative [start] is below [len(job.Builds)], so the second loop
    takes its first turn and [job.Builds[start]] panics. *)
Definition RenderHistory (job : Job) (count : Z) : result string :=
  let len := Z.of_nat (length (Builds job)) in
  let pad := fst (padding count len) in
  if start (Builds job) count <? 0 then Panic
  else
    let max := windowMax (Builds job) count in
    cells ← renderAll max (window (Builds job) count);
    Ret (String.concat "" (pad ++ cells)).

(** ** The job and folder walk *)

(** [for _, ex := range i.Exclude { if ex.MatchString(name) { return } }] *)
Definition excluded (i : Instance) (name : string) : bool :=
  existsb (fun ex : Regexp => ex name) (Exclude i).

(** The loop over [buildObjects] that appends every accepted build. *)
Definition collectBuilds (buildObjects : list Json) : list Build :=
  fold_left
    (fun builds b =>
       match ProcessBuildObject b with
       | Some build => builds ++ [build]
       | None => builds
       end)
    buildObjects [].

(** The part of [ProcessJobObject] the two snapshots share: the checks on
    the job object, the fetch of the job's own listing and the sorted list
    of build stubs. *)
Definition jobListing (http : Transport) (i : Instance) (jobIf : Json)
  : option (string * string * list Build) :=
  match AsJsonObject jobIf with
  | None => None
  | Some job =>
      let '(class, ok) := GetString job "_class" in
      if negb ok || negb (String.eqb class "hudson.model.FreeStyleProject") then None
      else
        let '(name, ok) := GetString job "name" in
        if negb ok then None
        else if excluded i name then None
        else
          let '(url, ok) := GetString job "url" in
          if negb ok then None
          else
            match http (url +:+ "api/json") with
            | NetError | DecodeError => None
            | Decoded details =>
                match GetArray details "builds" with
                | None => None
                | Some buildObjects =>
                    Some (name, url, sort_Sort (collectBuilds buildObjects))
                end
            end
  end.

(** A [for ... range] loop whose body may panic. *)
Fixpoint forEach {A B : Type} (body : B -> A -> result B) (l : list A) (acc : B)
  : result B :=
  match l with
  | [] => Ret acc
  | x :: l' => acc' ← body acc x; forEach body l' acc'
  end.

(** [for _, b := range builds { b.FetchDetails() }]: the error is dropped. *)
Definition fetchAll (http : Transport) (builds : list Build) : list Build :=
  (fun b => fst (FetchDetails http b)) <$> builds.

(** *** src/unnamed/part_000 *)
Module Part000.

Definition ProcessJobObject (http : Transport) (i : Instance) (jobIf : Json)
  : option Job :=
  match jobListing http i jobIf with
  | Some (name, url, builds) => Some (mkJob name url builds)
  | None => None
  end.

(** One turn of the loop over [i.Folders]. *)
Definition fetchFolder (http : Transport) (i : Instance)
    (jobs : list Job) (folderUrl : string) : list Job :=
  match http folderUrl with
  | NetError | DecodeError => jobs
  | Decoded folder =>
      match GetArray folder "jobs" with
      | None => jobs
      | Some jobObjects =>
          fold_left
            (fun jobs j =>
               match ProcessJobObject http i j with
               | Some job => jobs ++ [job]
               | None => jobs
               end)
            jobObjects jobs
      end
  end.

Definition FetchJobs (http : Transport) (i : Instance) : list Job :=
  fold_left (fetchFolder http i) (Folders i) [].

(** [maxBuilds] and [maxHistory] as [main] reads and clamps them. *)
Definition limits (config : JsonObject) : Z * Z :=
  let '(maxBuilds, ok) := GetInt64 config "maxBuilds" in
  let maxBuilds := if ok then maxBuilds else 10 in
  let '(maxHistory, ok) := GetInt64 config "maxHistory" in
  let maxHistory := if ok then maxHistory else 10 in
  let maxHistory := if maxHistory >? maxBuilds then maxBuilds else maxHistory in
  (maxBuilds, maxHistory).

(** What [main] does to one job between [FetchJobs] and the report: the
    truncation, then one [FetchDetails] per retained build.  The workers
    touch disjoint builds, so the order of the calls does not show. *)
Definition retain (http : Transport) (maxBuilds : Z) (j : Job) : result Job :=
  builds ← truncate (Builds j) maxBuilds;
  Ret (mkJob (JobName j) (JobUrl j) (fetchAll http builds)).

End Part000.

(** *** src/jitdash.go *)
Module Jitdash.

Definition ProcessJobObject (http : Transport) (i : Instance) (jobIf : Json)
    (maxBuilds : Z) : result (option Job) :=
  match jobListing http i jobIf with
  | Some (name, url, builds) =>
      builds ← truncate builds maxBuilds;
      Ret (Some (mkJob name url (fetchAll http builds)))
  | None => Ret None
  end.

(** One turn of the loop over [i.Folders]. *)
Definition fetchFolder (http : Transport) (i : Instance) (maxBuilds : Z)
    (jobs : list Job) (folderUrl : string) : result (list Job) :=
  match http folderUrl with
  | NetError | DecodeError => Ret jobs
  | Decoded folder =>
      let '(class, ok) := GetString folder "_class" in
      if negb ok
         || negb (String.eqb class "com.cloudbees.hudson.plugins.folder.Folder")
      then Ret jobs
      else
        match GetArray folder "jobs" with
        | None => Ret jobs
        | Some jobObjects =>
            forEach
              (fun jobs j =>
                 r ← ProcessJobObject http i j maxBuilds;
                 Ret (match r with
                      | Some job => jobs ++ [job]
                      | None => jobs
                      end))
              jobObjects jobs
        end
  end.

Definition FetchJobs (http : Transport) (i : Instance) (maxBuilds : Z)
  : result (list Job) :=
  forEach (fetchFolder http i maxBuilds) (Folders i) [].

End Jitdash.

(** ** Specification vocabulary *)

(** *** Real-number reading of float64 *)

Definition bpow (e : Z) : R := powerRZ 2 e.

Definition F2R (m e : Z) : R := (IZR m * bpow e)%R.

Definition B2R (v : float64) : R :=
  match v with
  | S754_finite s m e => F2R (cond_Zopp s (Z.pos m)) e
  | _ => 0%R
  end.

(** Where a real [u] lies in the unit interval that starts at the integer
    [m]. *)
Definition loc_in (m : Z) (l : location) (u : R) : Prop :=
  match l with
  | loc_Exact => u = IZR m
  | loc_Inexact Lt => (IZR m < u < IZR m + / 2)%R
  | loc_Inexact Eq => u = (IZR m + / 2)%R
  | loc_Inexact Gt => (IZR m + / 2 < u < IZR m + 1)%R
  end.

(** A real that some full-precision mantissa and some exponent denote. *)
Definition Repr (g : R) : Prop :=
  exists (m : positive) (e : Z), Z.pos (digits2_pos m) = prec /\ g = F2R (Z.pos m) e.

(** [v] is at least as close to [r] as every representable real. *)
Definition Nearest (r v : R) : Prop :=
  forall g, Repr g -> (Rabs (r - v) <= Rabs (r - g))%R.

(** The state of the rounding shifter [k] steps after it started from the
    mantissa [m0] with the real [u0] located at it. *)
Definition shifted (m0 : Z) (u0 : R) (k : Z) (mrs : shr_record) : Prop :=
  0 <= shr_m mrs /\
  Zdigits2 (shr_m mrs) = Z.max 0 (Zdigits2 m0 - k) /\
  loc_in (shr_m mrs) (loc_of_shr_record mrs) (u0 * bpow (- k))%R.

(** A positive float with a full-precision mantissa and an exponent between
    [lo] and [hi]. *)
Definition PosNormal (lo hi : Z) (v : float64) : Prop :=
  exists m e, v = S754_finite false m e /\ Z.pos (digits2_pos m) = 53 /\ lo <= e <= hi.

(** The float that [sparkIndex] truncates. *)
Definition scaled (f max : Z) : float64 :=
  fmul (fdiv (float64_of_int64 f) (float64_of_int64 max))
       (float64_of_int64 (len_sparks - 2)).

(** An integer that binary64 holds without rounding: a mantissa below
    [2^53] times a power of two. *)
Definition float64_exact (n : Z) : Prop :=
  exists m e, 0 <= e /\ Z.abs m < 2 ^ 53 /\ n = m * 2 ^ e.

(** *** Decimal literals *)

(** The number a digit sequence denotes when read after the digits that
    already made [acc]. *)
Fixpoint uint_value (d : Decimal.uint) (acc : Z) : Z :=
  match d with
  | Decimal.Nil => acc
  | Decimal.D0 d => uint_value d (acc * 10 + 0)
  | Decimal.D1 d => uint_value d (acc * 10 + 1)
  | Decimal.D2 d => uint_value d (acc * 10 + 2)
  | Decimal.D3 d => uint_value d (acc * 10 + 3)
  | Decimal.D4 d => uint_value d (acc * 10 + 4)
  | Decimal.D5 d => uint_value d (acc * 10 + 5)
  | Decimal.D6 d => uint_value d (acc * 10 + 6)
  | Decimal.D7 d => uint_value d (acc * 10 + 7)
  | Decimal.D8 d => uint_value d (acc * 10 + 8)
  | Decimal.D9 d => uint_value d (acc * 10 + 9)
  end.

(** *** Order on builds *)

(** Non-decreasing build numbers. *)
Definition le_Id (a b : Build) : Prop := Id a <= Id b.

(** *** The specification's reading of two computations *)


(** The specification's [max]: the scan of [RenderHistory] restricted to the
    builds of the window with [Complete = true]. *)
Definition completeMax (builds : list Build) (count : Z) : Z :=
  fold_left scanMax (filter (fun b => Complete b = true) (window builds count)) 0.

(** An entry of [actions] that is an object tagged as a test-result
    action. *)
Definition testResult (a : Json) : option JsonObject :=
  match a with
  | JObject action =>
      match action !! "_class" with
      | Some (JString class) =>
          if String.eqb class "hudson.tasks.junit.TestResultAction"
          then Some action else None
      | _ => None
      end
  | _ => None
  end.

(** The test-result actions among [actions], in their order. *)
Definition testResults (actions : list Json) : list JsonObject :=
  omap testResult actions.

(** The specification's failure count: the [failCount] of the last
    test-result action, 0 when there is none. *)
Definition lastFailCount (details : JsonObject) : Z :=
  match GetArray details "actions" with
  | Some actions =>
      match last (testResults actions) with
      | Some action => fst (GetInt64 action "failCount")
      | None => 0
      end
  | None => 0
  end.

(** ** Example data *)

(** Two builds of one job: number 1 still running with five failing tests
    reported so far, number 2 finished with two. *)
Definition twoBuilds : list Build :=
  [mkBuild 1 "http://ci/job/a/1/" 0 5 false; mkBuild 2 "http://ci/job/a/2/" 0 2 true].

(** The detail page of a running build whose test report already counts
    five failures. *)
Definition runningDetails : JsonObject :=
  {[ "result" := JString "";
     "timestamp" := JFloat (float64_of_int64 1000);
     "building" := JBool true;
     "actions" :=
       JArray [JObject {[ "_class" := JString "hudson.tasks.junit.TestResultAction";
                          "failCount" := JFloat (float64_of_int64 5) ]}] ]}.

(** The detail page of a failed build with two test reports; the last one
    counts no failure. *)
Definition failedDetails : JsonObject :=
  {[ "result" := JString "FAILURE";
     "timestamp" := JFloat (float64_of_int64 1000);
     "building" := JBool false;
     "actions" :=
       JArray [JObject {[ "_class" := JString "hudson.tasks.junit.TestResultAction";
                          "failCount" := JFloat (float64_of_int64 3) ]};
               JNull;
               JObject {[ "_class" := JString "hudson.tasks.junit.TestResultAction";
                          "failCount" := JFloat (float64_of_int64 0) ]}] ]}.

Definition buildObject (n : Z) (url : string) : Json :=
  JObject {[ "_class" := JString "hudson.model.FreeStyleBuild";
             "number" := JFloat (float64_of_int64 n);
             "url" := JString url ]}.

Definition jobObject : Json :=
  JObject {[ "_class" := JString "hudson.model.FreeStyleProject";
             "name" := JString "a";
             "url" := JString "http://ci/job/a/" ]}.

(** A transport with one job listing, one untagged folder listing and one
    build detail page; every other URL fails. *)
Definition exampleHttp : Transport := fun url =>
  if String.eqb url "http://ci/job/a/api/json" then
    Decoded {[ "builds" := JArray [buildObject 3 "http://ci/job/a/3/";
                                   buildObject 1 "http://ci/job/a/1/";
                                   buildObject 2 "http://ci/job/a/2/"] ]}
  else if String.eqb url "http://ci/view/api/json" then
    Decoded {[ "_class" := JString "hudson.model.ListView";
               "jobs" := JArray [jobObject] ]}
  else if String.eqb url "http://ci/job/a/1/api/json" then Decoded runningDetails
  else if String.eqb url "http://ci/job/a/2/api/json" then Decoded failedDetails
  else NetError.

Definition exampleInstance : Instance :=
  mkInstance "ci" ["http://ci/view/api/json"] [].

(** The least integer that binary64 cannot hold: [2^53 + 1]. *)
Definition inexact : Z := 9007199254740993.

(** The job that the listing of [exampleHttp] yields. *)
Definition sortedJob : Job :=
  mkJob "a" "http://ci/job/a/"
    [stub 1 "http://ci/job/a/1/"; stub 2 "http://ci/job/a/2/"; stub 3 "http://ci/job/a/3/"].

(** Two complete builds, the first with a failure count below the [-1]
    sentinel, as a server that reports a negative [failCount] leaves it. *)
Definition belowSentinel : Job :=
  mkJob "a" "http://ci/job/a/"
    [mkBuild 1 "http://ci/job/a/1/" 0 (-5) true; mkBuild 2 "http://ci/job/a/2/" 0 1 true].

(** A detail page of a build that has just started: no [building] field, an
    empty result, four failures counted so far. *)
Definition pendingDetails : JsonObject :=
  {[ "result" := JString "";
     "timestamp" := JFloat (float64_of_int64 1000);
     "actions" :=
       JArray [JObject {[ "_class" := JString "hudson.tasks.junit.TestResultAction";
                          "failCount" := JFloat (float64_of_int64 4) ]}] ]}.

Definition pendingHttp : Transport := fun _ => Decoded pendingDetails.

(** A transport with a tagged folder that lists [jobObject], and the listing
    of that job with three builds; no detail page can be fetched. *)
Definition taggedHttp : Transport := fun url =>
  if String.eqb url "http://ci/job/a/api/json" then
    Decoded {[ "builds" := JArray [buildObject 3 "http://ci/job/a/3/";
                                   buildObject 1 "http://ci/job/a/1/";
                                   buildObject 2 "http://ci/job/a/2/"] ]}
  else if String.eqb url "http://ci/folder/api/json" then
    Decoded {[ "_class" := JString "com.cloudbees.hudson.plugins.folder.Folder";
               "jobs" := JArray [jobObject] ]}
  else NetError.

Definition taggedInstance : Instance :=
  mkInstance "ci" ["http://ci/folder/api/json"] [].

(** A stand-in for [regexp.Compile] that accepts every expression but the
    one with an unclosed bracket, and compiles to a match on equality. *)
Definition exampleCompile : string -> Regexp + string := fun estr =>
  if String.eqb estr "[" then inr "missing closing ]"
  else inl (fun name => String.eqb name estr).

(** One entry of [instances]: a folder and an [exclude] that is not an
    array. *)
Definition exampleConfigEntry : Json :=
  JObject {[ "folders" := JArray [JString "http://ci/view/"];
             "exclude" := JString "nightly" ]}.

(** ** Configuration *)

(** The errors [ProcessInstanceObject] builds with [errors.New(fmt.Sprintf(...))]:
    one constructor for each format string, carrying the arguments of the
    format. *)
Inductive ConfigError :=
  | notAnObject (name : string)
  | noFolders (name : string)
  | invalidFolder (name : string) (f : Json)
  | invalidExclude (name : string) (e : Json)
  | invalidExcludeRe (name estr err : string).

Inductive fallible (A : Type) :=
  | Ok (a : A)
  | Err (e : ConfigError).
Arguments Ok {A} a.
Arguments Err {A} e.

(** The loop over [foldersArray]; [folders] is the slice it appends to. *)
Fixpoint foldersLoop (name : string) (foldersArray : list Json) (folders : list string)
  : fallible (list string) :=
  match foldersArray with
  | [] => Ok folders
  | JString folder :: rest => foldersLoop name rest (folders ++ [folder +:+ "api/json"])
  | f :: _ => Err (invalidFolder name f)
  end.

(** The loop over [excludeArray]; [Compile] is [regexp.Compile], which gives
    the compiled expression or the text of its error. *)
Fixpoint excludeLoop (Compile : string -> Regexp + string) (name : string)
    (excludeArray : list Json) (exclude : list Regexp) : fallible (list Regexp) :=
  match excludeArray with
  | [] => Ok exclude
  | JString estr :: rest =>
      match Compile estr with
      | inl ex => excludeLoop Compile name rest (exclude ++ [ex])
      | inr err => Err (invalidExcludeRe name estr err)
      end
  | e :: _ => Err (invalidExclude name e)
  end.

Definition ProcessInstanceObject (Compile : string -> Regexp + string)
    (instanceIf : Json) (name : string) : fallible Instance :=
  match AsJsonObject instanceIf with
  | None => Err (notAnObject name)
  | Some instanceObject =>
      match GetArray instanceObject "folders" with
      | None => Err (noFolders name)
      | Some foldersArray =>
          match foldersLoop name foldersArray [] with
          | Err e => Err e
          | Ok folders =>
              match GetArray instanceObject "exclude" with
              | Some excludeArray =>
                  match excludeLoop Compile name excludeArray [] with
                  | Err e => Err e
                  | Ok exclude => Ok (mkInstance name folders exclude)
                  end
              | None => Ok (mkInstance name folders [])
              end
          end
      end
  end.


(** *** Vocabulary for the statements about the configuration *)

(** The text of a JSON string, nothing for any other value. *)
Definition asString (j : Json) : option string :=
  match j with
  | JString s => Some s
  | _ => None
  end.

(** A regular expression that compiles. *)
Definition compiles (Compile : string -> Regexp + string) (estr : string) : bool :=
  match Compile estr with
  | inl _ => true
  | inr _ => false
  end.

(** Whether an instance entry is acceptable: an object, with an array
    [folders] of strings and, if it has an array [exclude], only strings
    that compile in it. *)
Definition validInstance (Compile : string -> Regexp + string) (instanceIf : Json) : bool :=
  match instanceIf with
  | JObject o =>
      match o !! "folders" with
      | Some (JArray fs) =>
          forallb (fun f => bool_decide (is_Some (asString f))) fs &&
          match o !! "exclude" with
          | Some (JArray es) =>
              forallb (fun e => match asString e with
                                | Some estr => compiles Compile estr
                                | None => false
                                end) es
          | _ => true
          end
      | _ => false
      end
  | _ => false
  end.

(** A build as [ProcessBuildObject] makes it: only [Id] and [Url] set. *)
Definition isStub (b : Build) : Prop :=
  Timestamp b = 0 /\ Failures b = 0 /\ Complete b = false.

(** The jobs one folder yields in src/unnamed/part_000. *)
Definition Part000_folderJobs (http : Transport) (i : Instance) (folderUrl : string)
  : list Job :=
  match http folderUrl with
  | Decoded folder =>
      match GetArray folder "jobs" with
      | Some jobObjects => omap (Part000.ProcessJobObject http i) jobObjects
      | None => []
      end
  | _ => []
  end.


(** What holds of a job that [FetchJobs] of src/jitdash.go returns. *)
Definition Jitdash_job_ok (i : Instance) (maxBuilds : Z) (job : Job) : Prop :=
  excluded i (JobName job) = false /\
  Z.of_nat (length (Builds job)) <= maxBuilds /\
  StronglySorted le_Id (Builds job).


(** * binary64 arithmetic

    Every operation the program uses on [float64] rounds its exact result
    to a nearest representable value; the bounds and the monotonicity of
    the glyph index follow from that alone. *)

(** ** Powers of two and digit counts *)

Section Bpow.
Local Open Scope R_scope.

Lemma bpow_gt_0 e : 0 < bpow e.
Proof. apply powerRZ_lt; lra. Qed.

Lemma bpow_plus a b : bpow (a + b) = bpow a * bpow b.
Proof. apply powerRZ_add; lra. Qed.

Lemma bpow_IZR k : (0 <= k)%Z -> bpow k = IZR (2 ^ k).
Proof.
  intros Hk. destruct k as [|p|p]; [reflexivity| |lia].
  unfold bpow. change (2 ^ Z.pos p)%Z with (Z.pow_pos 2 p).
  now rewrite Zpower_pos_powerRZ.
Qed.

Lemma bpow_opp e : bpow (- e) = / bpow e.
Proof. apply powerRZ_neg'. Qed.

Lemma bpow_ge_1 k : (0 <= k)%Z -> 1 <= bpow k.
Proof.
  intros Hk. rewrite bpow_IZR by assumption. apply IZR_le.
  assert (0 < 2 ^ k)%Z by (apply Z.pow_pos_nonneg; lia). lia.
Qed.

Lemma bpow_le a b : (a <= b)%Z -> bpow a <= bpow b.
Proof.
  intros Hab. replace b with (a + (b - a))%Z by lia. rewrite bpow_plus.
  pose proof (bpow_gt_0 a). pose proof (bpow_ge_1 (b - a) ltac:(lia)). nra.
Qed.

Lemma bpow_lt a b : (a < b)%Z -> bpow a < bpow b.
Proof.
  intros Hab. replace b with (a + 1 + (b - a - 1))%Z by lia.
  rewrite !bpow_plus. change (bpow 1) with (2 * 1).
  pose proof (bpow_gt_0 a). pose proof (bpow_ge_1 (b - a - 1) ltac:(lia)). nra.
Qed.

Lemma bpow_cancel e : bpow e * bpow (- e) = 1.
Proof. rewrite <- bpow_plus. now replace (e + - e)%Z with 0%Z by lia. Qed.

Lemma F2R_shift m e k : (0 <= k)%Z -> F2R (m * 2 ^ k) e = F2R m (e + k).
Proof.
  intros Hk. unfold F2R. rewrite mult_IZR, bpow_plus, <- bpow_IZR by assumption. ring.
Qed.
End Bpow.

Section Digits.
Lemma digits2_size p : digits2_pos p = Pos.size p.
Proof. induction p; simpl; congruence. Qed.

Lemma digits2_bounds p :
  2 ^ (Z.pos (digits2_pos p) - 1) <= Z.pos p < 2 ^ Z.pos (digits2_pos p).
Proof.
  rewrite digits2_size. split.
  - pose proof (Pos.size_le p) as H.
    assert (2 ^ Z.pos (Pos.size p) <= 2 * Z.pos p) as H'.
    { rewrite <- Pos2Z.inj_pow. change (2 * Z.pos p) with (Z.pos p~0). now apply Pos2Z.pos_le_pos. }
    replace (Z.pos (Pos.size p)) with (Z.pos (Pos.size p) - 1 + 1) in H' by lia.
    rewrite Z.pow_add_r in H' by lia. lia.
  - pose proof (Pos.size_gt p) as H. rewrite <- Pos2Z.inj_pow. now apply Pos2Z.pos_lt_pos.
Qed.

Lemma Zdigits2_bounds m :
  0 < m -> 2 ^ (Zdigits2 m - 1) <= m < 2 ^ Zdigits2 m.
Proof. destruct m; try lia. intros _. apply digits2_bounds. Qed.

Lemma Zdigits2_unique m d :
  2 ^ (d - 1) <= m < 2 ^ d -> 0 < d -> Zdigits2 m = d.
Proof.
  intros [Hlo Hhi] Hd.
  assert (0 < m) by (assert (0 < 2 ^ (d - 1)) by (apply Z.pow_pos_nonneg; lia); lia).
  pose proof (Zdigits2_bounds m H) as [Hlo' Hhi'].
  assert (0 < Zdigits2 m) by (destruct m; simpl; lia).
  destruct (Z.lt_trichotomy (Zdigits2 m) d) as [Hlt|[Heq|Hgt]]; [|assumption|].
  - assert (2 ^ Zdigits2 m <= 2 ^ (d - 1)) by (apply Z.pow_le_mono_r; lia). lia.
  - assert (2 ^ d <= 2 ^ (Zdigits2 m - 1)) by (apply Z.pow_le_mono_r; lia). lia.
Qed.
End Digits.

(** ** The rounding shifter *)

Section Shift.
Local Open Scope R_scope.

Lemma loc_of_record m l : loc_of_shr_record (shr_record_of_loc m l) = l.
Proof. now destruct l as [|[]]. Qed.

Lemma shr_m_record m l : shr_m (shr_record_of_loc m l) = m.
Proof. now destruct l as [|[]]. Qed.

Lemma shr_1_nonneg mrs : (0 <= shr_m mrs)%Z -> (0 <= shr_m (shr_1 mrs))%Z.
Proof. destruct mrs as [[|[p|p|]|p] r s]; simpl; lia. Qed.

Lemma shr_1_digits mrs :
  (0 <= shr_m mrs)%Z ->
  Zdigits2 (shr_m (shr_1 mrs)) = Z.max 0 (Zdigits2 (shr_m mrs) - 1).
Proof. destruct mrs as [[|[p|p|]|p] r s]; simpl; lia. Qed.

Lemma shr_1_loc mrs u :
  (0 <= shr_m mrs)%Z ->
  loc_in (shr_m mrs) (loc_of_shr_record mrs) u ->
  loc_in (shr_m (shr_1 mrs)) (loc_of_shr_record (shr_1 mrs)) (u / 2).
Proof.
  destruct mrs as [[|[p|p|]|p] r s]; simpl; try lia; intros _;
    try rewrite (Pos2Z.inj_xI p); try rewrite (Pos2Z.inj_xO p);
    destruct r, s; simpl; rewrite ?plus_IZR, ?mult_IZR; lra.
Qed.

Lemma iter_pos_ind {A : Type} (f : A -> A) (P : Z -> A -> Prop) :
  (forall k x, P k x -> P (k + 1)%Z (f x)) ->
  forall p k x, P k x -> P (k + Z.pos p)%Z (SpecFloat.iter_pos f p x).
Proof.
  intros Hstep. induction p as [p IH|p IH|]; intros k x Hx; simpl.
  - replace (k + Z.pos p~1)%Z with (k + 1 + Z.pos p + Z.pos p)%Z by lia. auto.
  - replace (k + Z.pos p~0)%Z with (k + Z.pos p + Z.pos p)%Z by lia. auto.
  - auto.
Qed.

Lemma shifted_step m0 u0 k mrs :
  (0 <= k)%Z -> shifted m0 u0 k mrs -> shifted m0 u0 (k + 1) (shr_1 mrs).
Proof.
  intros Hk (Hm & Hd & Hl). repeat split.
  - now apply shr_1_nonneg.
  - rewrite shr_1_digits, Hd by assumption. lia.
  - replace (- (k + 1))%Z with (- k + - (1))%Z by lia. rewrite bpow_plus.
    replace (u0 * (bpow (- k) * bpow (- (1)))) with (u0 * bpow (- k) / 2)
      by (change (bpow (- (1))) with (/ (2 * 1)); field).
    now apply shr_1_loc.
Qed.

Lemma shr_shifted m l e n u :
  (0 <= m)%Z -> (0 <= n)%Z -> loc_in m l u ->
  shifted m u n (fst (shr (shr_record_of_loc m l) e n)) /\
  snd (shr (shr_record_of_loc m l) e n) = (e + n)%Z.
Proof.
  intros Hm Hn Hu.
  assert (shifted m u 0 (shr_record_of_loc m l)) as H0.
  { repeat split.
    - now rewrite shr_m_record.
    - rewrite shr_m_record. destruct m; simpl; lia.
    - rewrite shr_m_record, loc_of_record. change (bpow (- 0)) with 1.
      now rewrite Rmult_1_r. }
  destruct n as [|p|p]; simpl; [|clear Hn|lia].
  - split; [assumption|lia].
  - split; [|reflexivity].
    apply (iter_pos_ind shr_1 (fun k x => (0 <= k)%Z /\ shifted m u k x)) with (k := 0%Z).
    + intros k x [Hk Hx]. split; [lia|]. now apply shifted_step.
    + split; [lia|assumption].
Qed.
End Shift.

(** ** Rounding to nearest *)

(** Splits every absolute value of the goal on the sign of its argument. *)
Ltac Rabs_cases := unfold Rabs; repeat destruct Rcase_abs; lra.

Section Round.
Local Open Scope R_scope.

Lemma fexp_normal x : (-1021 <= x)%Z -> fexp prec emax x = (x - 53)%Z.
Proof. unfold fexp, emin, prec, emax. lia. Qed.

Lemma Rabs_scale a b c : 0 < c -> Rabs (a * c - b * c) = Rabs (a - b) * c.
Proof.
  intros Hc. replace (a * c - b * c) with ((a - b) * c) by ring.
  rewrite Rabs_mult. f_equal. apply Rabs_pos_eq. lra.
Qed.

(** No representable real lies strictly inside a unit interval of
    full-precision mantissas. *)
Lemma repr_gap m' e' g :
  (2 ^ 52 <= m')%Z -> Repr g -> g <= F2R m' e' \/ F2R (m' + 1) e' <= g.
Proof.
  intros Hm' (mg & eg & Hd & ->).
  pose proof (digits2_bounds mg) as [Hlo Hhi]. rewrite Hd in Hlo, Hhi.
  unfold prec in Hlo, Hhi. change (53 - 1)%Z with 52%Z in Hlo.
  pose proof (bpow_gt_0 e') as Hpos.
  destruct (Z_lt_le_dec eg e') as [Hlt|Hge].
  - left. unfold F2R.
    assert (bpow eg <= bpow e' / 2) as Hb.
    { assert (bpow e' = bpow (e' - 1) * 2) as ->.
      { rewrite <- (Rmult_1_r 2). change (2 * 1) with (bpow 1).
        rewrite <- bpow_plus. f_equal. lia. }
      pose proof (bpow_le eg (e' - 1) ltac:(lia)). lra. }
    assert (IZR (Z.pos mg) <= IZR (2 ^ 53 - 1)) as H1 by (apply IZR_le; lia).
    assert (IZR (2 ^ 52) <= IZR m') as H2 by (apply IZR_le; lia).
    change (2 ^ 53 - 1)%Z with 9007199254740991%Z in H1.
    change (2 ^ 52)%Z with 4503599627370496%Z in H2.
    assert (0 < IZR (Z.pos mg)) as H3 by (apply IZR_lt; lia).
    pose proof (bpow_gt_0 eg). nra.
  - replace eg with (e' + (eg - e'))%Z by lia.
    rewrite <- F2R_shift by lia. unfold F2R.
    set (K := (Z.pos mg * 2 ^ (eg - e'))%Z).
    destruct (Z_le_gt_dec K m') as [HK|HK].
    + left. apply IZR_le in HK. nra.
    + right. assert (m' + 1 <= K)%Z as HK' by lia. apply IZR_le in HK'. nra.
Qed.

Lemma round_nearest_even_spec m' l u' :
  loc_in m' l u' ->
  (round_nearest_even m' l = m' \/ round_nearest_even m' l = (m' + 1)%Z) /\
  forall w, w <= IZR m' \/ IZR m' + 1 <= w ->
            Rabs (u' - IZR (round_nearest_even m' l)) <= Rabs (u' - w).
Proof.
  intros Hl. split.
  - destruct l as [|[]]; simpl; auto. destruct (Z.even m'); auto.
  - intros w Hw.
    assert (forall x, x = m' \/ x = (m' + 1)%Z -> IZR x = IZR m' \/ IZR x = IZR m' + 1) as Hx.
    { intros x [->| ->]; [now left|right; now rewrite plus_IZR]. }
    destruct l as [|[]]; simpl in *.
    + subst u'. rewrite Rminus_diag. rewrite Rabs_R0. apply Rabs_pos.
    + destruct (Z.even m'); [|rewrite plus_IZR];
        Rabs_cases.
    + Rabs_cases.
    + rewrite plus_IZR. Rabs_cases.
Qed.

Lemma nearest_scaled m' e' l u' :
  (2 ^ 52 <= m')%Z -> loc_in m' l u' ->
  Nearest (u' * bpow e') (F2R (round_nearest_even m' l) e').
Proof.
  intros Hm' Hl g Hg.
  pose proof (bpow_gt_0 e') as Hpos.
  destruct (round_nearest_even_spec m' l u' Hl) as [_ Hn].
  assert (g = g * bpow (- e') * bpow e') as Eg.
  { rewrite Rmult_assoc, (Rmult_comm (bpow (- e'))), bpow_cancel. ring. }
  rewrite Eg. unfold F2R. rewrite !Rabs_scale by assumption.
  apply Rmult_le_compat_r; [lra|]. apply Hn.
  pose proof (bpow_gt_0 (- e')) as Hpos'.
  destruct (repr_gap m' e' g Hm' Hg) as [H|H]; unfold F2R in H; [left|right].
  - apply (Rmult_le_compat_r (bpow (- e'))) in H; [|lra].
    rewrite (Rmult_assoc (IZR m')), bpow_cancel in H. lra.
  - apply (Rmult_le_compat_r (bpow (- e'))) in H; [|lra].
    rewrite (Rmult_assoc (IZR (m' + 1))), bpow_cancel, plus_IZR in H. lra.
Qed.

Lemma binary_round_aux_correct s m e l u :
  (0 < m)%Z -> (53 <= Zdigits2 m)%Z ->
  (-1021 <= Zdigits2 m + e)%Z -> (Zdigits2 m + e <= 1023)%Z ->
  loc_in m l u ->
  exists mz ez,
    binary_round_aux prec emax s m e l = S754_finite s mz ez /\
    Z.pos (digits2_pos mz) = 53%Z /\
    (Zdigits2 m + e - 53 <= ez <= Zdigits2 m + e - 52)%Z /\
    Nearest (u * bpow e) (F2R (Z.pos mz) ez).
Proof.
  intros Hm Hd Hlo Hhi Hl.
  unfold binary_round_aux, shr_fexp.
  rewrite fexp_normal by assumption.
  set (n := (Zdigits2 m + e - 53 - e)%Z).
  destruct (shr_shifted m l e n u ltac:(lia) ltac:(lia) Hl) as [(Hm' & Hd' & Hl') He'].
  destruct (shr (shr_record_of_loc m l) e n) as [mrs' e'] eqn:E. simpl in Hm', Hd', Hl', He'.
  set (m' := shr_m mrs') in *. set (l' := loc_of_shr_record mrs') in *.
  assert (Zdigits2 m' = 53%Z) as Hd53 by lia.
  assert (0 < m')%Z as Hm'pos by (destruct m'; simpl in Hd53; lia).
  pose proof (Zdigits2_bounds m' Hm'pos) as [Hb1 Hb2]. rewrite Hd53 in Hb1, Hb2.
  change (53 - 1)%Z with 52%Z in Hb1.
  pose proof (nearest_scaled m' e' l' _ Hb1 Hl') as Hnear.
  replace (u * bpow (- n) * bpow e') with (u * bpow e) in Hnear.
  2:{ rewrite Rmult_assoc, <- bpow_plus. f_equal. f_equal. lia. }
  destruct (round_nearest_even_spec m' l' _ Hl') as [Hm1 _].
  set (m1 := round_nearest_even m' l') in *.
  destruct (Z_lt_le_dec m1 (2 ^ 53)) as [Hlt|Hge].
  - assert (Zdigits2 m1 = 53%Z) as Hd1 by (apply Zdigits2_unique; lia).
    rewrite Hd1, fexp_normal by lia.
    replace (53 + e' - 53 - e')%Z with 0%Z by lia. simpl.
    destruct m1 as [|mz|mz] eqn:Em1; try lia.
    exists mz, e'. split; [|split; [|split]].
    + unfold emax, prec.
      destruct (Z.leb_spec e' (1024 - 53)); [reflexivity|lia].
    + exact Hd1.
    + lia.
    + exact Hnear.
  - assert (m1 = 2 ^ 53)%Z as Em1 by lia. rewrite Em1 in *.
    change (Zdigits2 (2 ^ 53)) with 54%Z. rewrite fexp_normal by lia.
    replace (54 + e' - 53 - e')%Z with 1%Z by lia.
    change (2 ^ 53)%Z with 9007199254740992%Z. cbn.
    exists 4503599627370496%positive, (e' + 1)%Z. split; [|split; [|split]].
    + unfold emax, prec.
      destruct (Z.leb_spec (e' + 1) (1024 - 53)); [reflexivity|lia].
    + reflexivity.
    + lia.
    + change (Z.pos 4503599627370496) with (4503599627370496)%Z.
      rewrite <- F2R_shift by lia. exact Hnear.
Qed.
End Round.

(** ** Normalisation and the location of a remainder *)

Section Ops.
Local Open Scope R_scope.

Lemma iter_xO mx k : Z.pos (Pos.iter xO mx k) = (Z.pos mx * 2 ^ Z.pos k)%Z.
Proof.
  induction k as [|k IH] using Pos.peano_ind.
  - simpl. lia.
  - rewrite Pos.iter_succ, Pos2Z.inj_xO, IH, Pos2Z.inj_succ, Z.pow_succ_r by lia. lia.
Qed.

Lemma digits_shift (mx : positive) k :
  (0 <= k)%Z -> Zdigits2 (Z.pos mx * 2 ^ k) = (Z.pos (digits2_pos mx) + k)%Z.
Proof.
  intros Hk. pose proof (digits2_bounds mx) as [Hlo Hhi].
  apply Zdigits2_unique; [|lia].
  replace (Z.pos (digits2_pos mx) + k - 1)%Z with (Z.pos (digits2_pos mx) - 1 + k)%Z by lia.
  rewrite !Z.pow_add_r by lia.
  assert (0 < 2 ^ k)%Z by (apply Z.pow_pos_nonneg; lia). nia.
Qed.

Lemma binary_round_correct s mx ex :
  (-1021 <= Z.pos (digits2_pos mx) + ex)%Z -> (Z.pos (digits2_pos mx) + ex <= 1023)%Z ->
  exists mz ez,
    binary_round prec emax s mx ex = S754_finite s mz ez /\
    Z.pos (digits2_pos mz) = 53%Z /\
    (Z.pos (digits2_pos mx) + ex - 53 <= ez <= Z.pos (digits2_pos mx) + ex - 52)%Z /\
    Nearest (F2R (Z.pos mx) ex) (F2R (Z.pos mz) ez).
Proof.
  intros Hlo Hhi. unfold binary_round, shl_align.
  rewrite fexp_normal by assumption.
  set (d := Z.pos (digits2_pos mx)) in *.
  destruct (d + ex - 53 - ex)%Z as [|k|k] eqn:Ek.
  - destruct (binary_round_aux_correct s (Z.pos mx) ex loc_Exact (IZR (Z.pos mx)))
      as (mz & ez & H1 & H2 & H3 & H4); simpl; try lia; try reflexivity.
    exists mz, ez. simpl in H3. repeat split; try assumption; lia.
  - destruct (binary_round_aux_correct s (Z.pos mx) ex loc_Exact (IZR (Z.pos mx)))
      as (mz & ez & H1 & H2 & H3 & H4); simpl; try lia; try reflexivity.
    exists mz, ez. simpl in H3. repeat split; try assumption; lia.
  - assert (Zdigits2 (Z.pos (Pos.iter xO mx k)) = 53%Z) as Hd.
    { rewrite iter_xO, digits_shift by lia. lia. }
    destruct (binary_round_aux_correct s (Z.pos (Pos.iter xO mx k)) (d + ex - 53) loc_Exact
                (IZR (Z.pos (Pos.iter xO mx k))))
      as (mz & ez & H1 & H2 & H3 & H4); try lia; try reflexivity.
    exists mz, ez. rewrite Hd in H3. repeat split; try assumption; try lia.
    replace (F2R (Z.pos mx) ex) with (IZR (Z.pos (Pos.iter xO mx k)) * bpow (d + ex - 53));
      [assumption|].
    rewrite iter_xO. fold (F2R (Z.pos mx * 2 ^ Z.pos k) (d + ex - 53)).
    rewrite F2R_shift by lia. f_equal. lia.
Qed.

Lemma new_location_spec q nb k :
  (0 <= k < nb)%Z -> loc_in q (new_location nb k) (IZR q + IZR k / IZR nb).
Proof.
  intros [Hk Hnb].
  assert (0 < IZR nb) as Hpos by (apply IZR_lt; lia).
  assert (0 <= IZR k) as Hk' by (apply IZR_le; lia).
  assert (forall c, (2 * k ?= nb)%Z = c ->
            match c with
            | Lt => IZR k / IZR nb < / 2
            | Eq => IZR k / IZR nb = / 2
            | Gt => / 2 < IZR k / IZR nb
            end) as Hcmp.
  { intros c Hc.
    assert (IZR k / IZR nb * IZR nb = IZR k) as Hx by (field; lra).
    destruct c.
    - apply Z.compare_eq in Hc. apply (f_equal IZR) in Hc. rewrite mult_IZR in Hc.
      apply (Rmult_eq_reg_r (IZR nb)); lra.
    - rewrite Z.compare_lt_iff in Hc. apply IZR_lt in Hc. rewrite mult_IZR in Hc.
      apply (Rmult_lt_reg_r (IZR nb)); lra.
    - rewrite Z.compare_gt_iff in Hc. apply IZR_lt in Hc. rewrite mult_IZR in Hc.
      apply (Rmult_lt_reg_r (IZR nb)); lra. }
  assert (k <> 0%Z -> 0 < IZR k / IZR nb < 1) as Hin.
  { intros Hk0. assert (0 < IZR k) by (apply IZR_lt; lia). apply IZR_lt in Hnb.
    assert (IZR k / IZR nb * IZR nb = IZR k) as Hx by (field; lra).
    split.
    - apply Rdiv_lt_0_compat; assumption.
    - apply (Rmult_lt_reg_r (IZR nb)); lra. }
  unfold new_location, new_location_even, new_location_odd.
  destruct (Z.even nb) eqn:Heven; destruct (Z.eqb_spec k 0) as [->|Hk0];
    try (simpl; unfold Rdiv; rewrite Rmult_0_l; lra).
  - specialize (Hin Hk0). specialize (Hcmp _ eq_refl).
    destruct (2 * k ?= nb)%Z; simpl; lra.
  - specialize (Hin Hk0).
    assert (Z.odd nb = true) as Hodd by (rewrite <- Z.negb_even, Heven; reflexivity).
    apply Z.odd_spec in Hodd. destruct Hodd as [j Hj].
    destruct (2 * k + 1 ?= nb)%Z eqn:Hc.
    + apply Z.compare_eq in Hc.
      assert ((2 * k ?= nb)%Z = Lt) as Hc' by (rewrite Z.compare_lt_iff; lia).
      specialize (Hcmp _ Hc'). simpl in *. lra.
    + rewrite Z.compare_lt_iff in Hc.
      assert ((2 * k ?= nb)%Z = Lt) as Hc' by (rewrite Z.compare_lt_iff; lia).
      specialize (Hcmp _ Hc'). simpl in *. lra.
    + rewrite Z.compare_gt_iff in Hc.
      assert ((2 * k ?= nb)%Z = Gt) as Hc' by (rewrite Z.compare_gt_iff; lia).
      specialize (Hcmp _ Hc'). simpl in *. lra.
Qed.
End Ops.

(** ** Division, multiplication, truncation *)

Section Ops2.
Local Open Scope R_scope.

Lemma mant53 m : Z.pos (digits2_pos m) = 53%Z -> (2 ^ 52 <= Z.pos m < 2 ^ 53)%Z.
Proof. intros H. pose proof (digits2_bounds m) as Hb. rewrite H in Hb. exact Hb. Qed.

Lemma Zdigits2_range m a b :
  (0 < a)%Z -> (2 ^ a <= m < 2 ^ b)%Z -> (a + 1 <= Zdigits2 m <= b)%Z.
Proof.
  intros Ha [Hlo Hhi].
  assert (0 < m)%Z by (assert (0 < 2 ^ a)%Z by (apply Z.pow_pos_nonneg; lia); lia).
  pose proof (Zdigits2_bounds m H) as [Hlo' Hhi'].
  assert (0 < Zdigits2 m)%Z by (destruct m; simpl; lia).
  split.
  - destruct (Z_lt_le_dec (Zdigits2 m) (a + 1)); [|assumption].
    assert (2 ^ Zdigits2 m <= 2 ^ a)%Z by (apply Z.pow_le_mono_r; lia). lia.
  - destruct (Z_lt_le_dec b (Zdigits2 m)); [|assumption].
    assert (2 ^ b <= 2 ^ (Zdigits2 m - 1))%Z by (apply Z.pow_le_mono_r; lia). lia.
Qed.

Lemma fdiv_correct sx mx ex sy my ey :
  Z.pos (digits2_pos mx) = 53%Z -> Z.pos (digits2_pos my) = 53%Z ->
  (-1021 <= ex - ey)%Z -> (ex - ey <= 1022)%Z ->
  exists mz ez,
    fdiv (S754_finite sx mx ex) (S754_finite sy my ey) = S754_finite (xorb sx sy) mz ez /\
    Z.pos (digits2_pos mz) = 53%Z /\
    (ex - ey - 53 <= ez <= ex - ey - 51)%Z /\
    Nearest (F2R (Z.pos mx) ex / F2R (Z.pos my) ey) (F2R (Z.pos mz) ez).
Proof.
  intros Hdx Hdy Hlo Hhi.
  pose proof (mant53 mx Hdx) as [Hx1 Hx2]. pose proof (mant53 my Hdy) as [Hy1 Hy2].
  unfold fdiv, SFdiv, SFdiv_core_binary. simpl Zdigits2. rewrite Hdx, Hdy.
  replace (53 + ex - (53 + ey))%Z with (ex - ey)%Z by lia.
  rewrite fexp_normal by assumption.
  replace (Z.min (ex - ey - 53) (ex - ey)) with (ex - ey - 53)%Z by lia.
  replace (ex - ey - (ex - ey - 53))%Z with 53%Z by lia.
  rewrite Z.shiftl_mul_pow2 by lia.
  pose proof (Z_div_mod (Z.pos mx * 2 ^ 53) (Z.pos my) ltac:(lia)) as Hdm.
  destruct (Z.div_eucl (Z.pos mx * 2 ^ 53) (Z.pos my)) as [q r].
  destruct Hdm as [Hq Hr].
  assert (2 ^ 52 <= q < 2 ^ 54)%Z as Hqb.
  { change (2 ^ 52)%Z with 4503599627370496%Z in *.
    change (2 ^ 53)%Z with 9007199254740992%Z in *.
    change (2 ^ 54)%Z with 18014398509481984%Z. split; nia. }
  pose proof (Zdigits2_range q 52 54 ltac:(lia) Hqb) as Hdq.
  destruct (binary_round_aux_correct (xorb sx sy) q (ex - ey - 53) (new_location (Z.pos my) r)
              (IZR q + IZR r / IZR (Z.pos my)))
    as (mz & ez & H1 & H2 & H3 & H4); try lia.
  { now apply new_location_spec. }
  exists mz, ez. repeat split; try assumption; try lia.
  replace (F2R (Z.pos mx) ex / F2R (Z.pos my) ey)
    with ((IZR q + IZR r / IZR (Z.pos my)) * bpow (ex - ey - 53)); [assumption|].
  assert (0 < IZR (Z.pos my)) as Hmy by (apply IZR_lt; lia).
  pose proof (bpow_gt_0 ey) as Hey.
  replace (IZR q + IZR r / IZR (Z.pos my)) with (IZR (Z.pos mx * 2 ^ 53) / IZR (Z.pos my)).
  2:{ rewrite Hq, plus_IZR, mult_IZR. field. lra. }
  rewrite mult_IZR, <- bpow_IZR by lia. unfold F2R.
  replace (ex - ey - 53)%Z with (ex + (- ey + - (53)))%Z by lia.
  rewrite !bpow_plus, !bpow_opp. field.
  pose proof (bpow_gt_0 53). lra.
Qed.

Lemma fmul_correct sx mx ex sy my ey :
  Z.pos (digits2_pos mx) = 53%Z -> Z.pos (digits2_pos my) = 53%Z ->
  (-1021 - 105 <= ex + ey)%Z -> (ex + ey <= 1023 - 106)%Z ->
  exists mz ez,
    fmul (S754_finite sx mx ex) (S754_finite sy my ey) = S754_finite (xorb sx sy) mz ez /\
    Z.pos (digits2_pos mz) = 53%Z /\
    (ex + ey + 52 <= ez <= ex + ey + 54)%Z /\
    Nearest (F2R (Z.pos mx) ex * F2R (Z.pos my) ey) (F2R (Z.pos mz) ez).
Proof.
  intros Hdx Hdy Hlo Hhi.
  pose proof (mant53 mx Hdx) as [Hx1 Hx2]. pose proof (mant53 my Hdy) as [Hy1 Hy2].
  unfold fmul, SFmul.
  assert (2 ^ 104 <= Z.pos (mx * my) < 2 ^ 106)%Z as Hp.
  { rewrite Pos2Z.inj_mul.
    change (2 ^ 104)%Z with (2 ^ 52 * 2 ^ 52)%Z. change (2 ^ 106)%Z with (2 ^ 53 * 2 ^ 53)%Z.
    split; nia. }
  pose proof (Zdigits2_range _ 104 106 ltac:(lia) Hp) as Hdp.
  destruct (binary_round_aux_correct (xorb sx sy) (Z.pos (mx * my)) (ex + ey) loc_Exact
              (IZR (Z.pos (mx * my))))
    as (mz & ez & H1 & H2 & H3 & H4); try lia; try reflexivity.
  exists mz, ez. repeat split; try assumption; try lia.
  replace (F2R (Z.pos mx) ex * F2R (Z.pos my) ey)
    with (IZR (Z.pos (mx * my)) * bpow (ex + ey)); [assumption|].
  rewrite Pos2Z.inj_mul, mult_IZR, bpow_plus. unfold F2R. ring.
Qed.

(** Truncation of a positive float is the floor of its value. *)
Lemma shiftl_floor m e :
  (0 <= m)%Z ->
  IZR (Z.shiftl m e) <= F2R m e < IZR (Z.shiftl m e) + 1.
Proof.
  intros Hm. unfold F2R. destruct (Z_le_gt_dec 0 e) as [He|He].
  - rewrite Z.shiftl_mul_pow2, mult_IZR, <- bpow_IZR by assumption. lra.
  - rewrite Z.shiftl_div_pow2 by lia.
    set (k := (- e)%Z). replace e with (- k)%Z by lia.
    assert (0 < 2 ^ k)%Z as Hk by (apply Z.pow_pos_nonneg; lia).
    pose proof (Z_div_mod_eq_full m (2 ^ k)) as Hdiv.
    pose proof (Z.mod_pos_bound m (2 ^ k) Hk) as Hmod.
    rewrite bpow_opp, bpow_IZR by lia.
    assert (0 < IZR (2 ^ k)) as Hk' by (apply IZR_lt; assumption).
    set (q := (m / 2 ^ k)%Z) in *. set (r := (m mod 2 ^ k)%Z) in *.
    assert (IZR m = IZR (2 ^ k) * IZR q + IZR r) as Hm'
      by (rewrite <- mult_IZR, <- plus_IZR; f_equal; exact Hdiv).
    assert (0 <= IZR r) by (apply IZR_le; lia).
    assert (IZR r < IZR (2 ^ k)) by (apply IZR_lt; lia).
    rewrite Hm'. split.
    + apply (Rmult_le_reg_r (IZR (2 ^ k))); [assumption|].
      rewrite Rmult_assoc, Rinv_l by lra. lra.
    + apply (Rmult_lt_reg_r (IZR (2 ^ k))); [assumption|].
      rewrite Rmult_assoc, Rinv_l by lra. lra.
Qed.
End Ops2.

Section NearestAlgebra.
Local Open Scope R_scope.

Lemma nearest_mono r1 v1 r2 v2 :
  Nearest r1 v1 -> Nearest r2 v2 -> Repr v1 -> Repr v2 -> r1 < r2 -> v1 <= v2.
Proof.
  intros N1 N2 R1 R2 Hlt.
  specialize (N1 v2 R2). specialize (N2 v1 R1).
  revert N1 N2. Rabs_cases.
Qed.

Lemma nearest_le r v g : Nearest r v -> Repr g -> r <= g -> v <= g.
Proof.
  intros N Rg Hle. specialize (N g Rg).
  revert N. Rabs_cases.
Qed.

Lemma nearest_ge r v g : Nearest r v -> Repr g -> g <= r -> g <= v.
Proof.
  intros N Rg Hle. specialize (N g Rg).
  revert N. Rabs_cases.
Qed.

Lemma nearest_exact r v : Nearest r v -> Repr r -> v = r.
Proof.
  intros N Rr. specialize (N r Rr).
  revert N. Rabs_cases.
Qed.

Lemma Repr_intro m e : Z.pos (digits2_pos m) = 53%Z -> Repr (F2R (Z.pos m) e).
Proof. intros H. now exists m, e. Qed.

(** Full-precision mantissa and exponent are determined by the value. *)
Lemma F2R_le_exp m1 e1 m2 e2 :
  Z.pos (digits2_pos m1) = 53%Z -> Z.pos (digits2_pos m2) = 53%Z ->
  F2R (Z.pos m1) e1 <= F2R (Z.pos m2) e2 -> (e1 <= e2)%Z.
Proof.
  intros H1 H2 Hle.
  pose proof (mant53 m1 H1) as [Ha1 Ha2]. pose proof (mant53 m2 H2) as [Hb1 Hb2].
  destruct (Z_le_gt_dec e1 e2) as [|Hgt]; [assumption|exfalso].
  replace e1 with (e2 + (e1 - e2))%Z in Hle by lia.
  rewrite <- F2R_shift in Hle by lia. unfold F2R in Hle.
  pose proof (bpow_gt_0 e2).
  assert (IZR (Z.pos m1 * 2 ^ (e1 - e2)) <= IZR (Z.pos m2)) as Hle' by nra.
  apply le_IZR in Hle'.
  assert (2 ^ 1 <= 2 ^ (e1 - e2))%Z by (apply Z.pow_le_mono_r; lia).
  change (2 ^ 1)%Z with 2%Z in *. nia.
Qed.

Lemma F2R_inj m1 e1 m2 e2 :
  Z.pos (digits2_pos m1) = 53%Z -> Z.pos (digits2_pos m2) = 53%Z ->
  F2R (Z.pos m1) e1 = F2R (Z.pos m2) e2 -> m1 = m2 /\ e1 = e2.
Proof.
  intros H1 H2 Heq.
  assert (e1 = e2) as ->.
  { apply Z.le_antisymm.
    - apply (F2R_le_exp m1 e1 m2 e2 H1 H2). lra.
    - apply (F2R_le_exp m2 e2 m1 e1 H2 H1). lra. }
  split; [|reflexivity].
  unfold F2R in Heq. pose proof (bpow_gt_0 e2).
  assert (IZR (Z.pos m1) = IZR (Z.pos m2)) as E by nra.
  apply eq_IZR in E. congruence.
Qed.
End NearestAlgebra.

(** ** The stages of the glyph index *)

Section Stages.
Local Open Scope R_scope.

Lemma PosNormal_Repr lo hi v : PosNormal lo hi v -> Repr (B2R v).
Proof. intros (m & e & -> & Hd & _). simpl. now apply Repr_intro. Qed.

Lemma PosNormal_inj lo hi lo' hi' v w :
  PosNormal lo hi v -> PosNormal lo' hi' w -> B2R v = B2R w -> v = w.
Proof.
  intros (m & e & -> & Hd & _) (m' & e' & -> & Hd' & _). simpl. intros H.
  destruct (F2R_inj m e m' e' Hd Hd' H) as [-> ->]. reflexivity.
Qed.

Lemma PosNormal_pos lo hi v : PosNormal lo hi v -> 0 < B2R v.
Proof.
  intros (m & e & -> & _ & _). simpl. unfold F2R.
  apply Rmult_lt_0_compat; [apply IZR_lt; lia|apply bpow_gt_0].
Qed.

Lemma of_int_spec f :
  (1 <= f < 2 ^ 63)%Z ->
  PosNormal (-52) 11 (float64_of_int64 f) /\ Nearest (IZR f) (B2R (float64_of_int64 f)).
Proof.
  intros [Hlo Hhi]. destruct f as [|p|p]; try lia.
  pose proof (Zdigits2_range (Z.pos p) 0 63) as Hd.
  assert (1 <= Z.pos (digits2_pos p) <= 63)%Z as Hd'.
  { pose proof (digits2_bounds p) as [H1 H2].
    destruct (Z_lt_le_dec 63 (Z.pos (digits2_pos p))) as [Hc|Hc]; [|lia].
    assert (2 ^ 63 <= 2 ^ (Z.pos (digits2_pos p) - 1))%Z by (apply Z.pow_le_mono_r; lia). lia. }
  destruct (binary_round_correct false p 0) as (mz & ez & H1 & H2 & H3 & H4); try lia.
  unfold float64_of_int64, binary_normalize. rewrite H1. split.
  - exists mz, ez. repeat split; try assumption; lia.
  - simpl. replace (IZR (Z.pos p)) with (F2R (Z.pos p) 0); [assumption|].
    unfold F2R. change (bpow 0) with 1. ring.
Qed.

Lemma fdiv_spec x y :
  PosNormal (-52) 11 x -> PosNormal (-52) 11 y ->
  PosNormal (-116) 12 (fdiv x y) /\ Nearest (B2R x / B2R y) (B2R (fdiv x y)).
Proof.
  intros (mx & ex & -> & Hdx & Hex) (my & ey & -> & Hdy & Hey).
  destruct (fdiv_correct false mx ex false my ey Hdx Hdy) as (mz & ez & H1 & H2 & H3 & H4);
    try lia.
  rewrite H1. split.
  - exists mz, ez. repeat split; try assumption; lia.
  - exact H4.
Qed.

Lemma fmul_spec p s :
  PosNormal (-116) 12 p -> PosNormal (-50) (-50) s ->
  PosNormal (-114) 16 (fmul p s) /\ Nearest (B2R p * B2R s) (B2R (fmul p s)).
Proof.
  intros (mx & ex & -> & Hdx & Hex) (my & ey & -> & Hdy & Hey).
  destruct (fmul_correct false mx ex false my ey Hdx Hdy) as (mz & ez & H1 & H2 & H3 & H4);
    try lia.
  rewrite H1. split.
  - exists mz, ez. repeat split; try assumption; lia.
  - exact H4.
Qed.

Lemma six_spec : PosNormal (-50) (-50) (float64_of_int64 (len_sparks - 2)).
Proof. exists 6755399441055744%positive, (-50)%Z. repeat split; try reflexivity; lia. Qed.

Lemma B2R_six : B2R (float64_of_int64 (len_sparks - 2)) = 6.
Proof.
  change (float64_of_int64 (len_sparks - 2)) with (S754_finite false 6755399441055744 (-50)).
  unfold B2R, cond_Zopp, F2R. change (bpow (-50)) with (bpow (- (50))).
  rewrite bpow_opp, bpow_IZR by lia.
  change (2 ^ 50)%Z with 1125899906842624%Z. lra.
Qed.

Lemma Repr_one : Repr 1.
Proof.
  exists 4503599627370496%positive, (-52)%Z. split; [reflexivity|].
  unfold F2R. change (bpow (-52)) with (bpow (- (52))).
  rewrite bpow_opp, bpow_IZR by lia.
  change (2 ^ 52)%Z with 4503599627370496%Z. lra.
Qed.

Lemma Repr_six : Repr 6.
Proof. rewrite <- B2R_six. eapply PosNormal_Repr, six_spec. Qed.

(** Each stage of the computation is monotone. *)
Lemma of_int_mono f1 f2 :
  (1 <= f1)%Z -> (f1 <= f2)%Z -> (f2 < 2 ^ 63)%Z ->
  B2R (float64_of_int64 f1) <= B2R (float64_of_int64 f2).
Proof.
  intros H1 H12 H2.
  destruct (Z.eq_dec f1 f2) as [->|Hne]; [lra|].
  destruct (of_int_spec f1 ltac:(lia)) as [P1 N1].
  destruct (of_int_spec f2 ltac:(lia)) as [P2 N2].
  apply (nearest_mono (IZR f1) _ (IZR f2) _ N1 N2);
    [eapply PosNormal_Repr; eassumption|eapply PosNormal_Repr; eassumption|].
  apply IZR_lt. lia.
Qed.

Lemma fdiv_mono x1 x2 y :
  PosNormal (-52) 11 x1 -> PosNormal (-52) 11 x2 -> PosNormal (-52) 11 y ->
  B2R x1 <= B2R x2 -> B2R (fdiv x1 y) <= B2R (fdiv x2 y).
Proof.
  intros P1 P2 Py Hle.
  destruct (Req_dec (B2R x1) (B2R x2)) as [Heq|Hne].
  - rewrite (PosNormal_inj _ _ _ _ x1 x2 P1 P2 Heq). lra.
  - destruct (fdiv_spec x1 y P1 Py) as [Q1 N1]. destruct (fdiv_spec x2 y P2 Py) as [Q2 N2].
    apply (nearest_mono _ _ _ _ N1 N2);
      [eapply PosNormal_Repr; eassumption|eapply PosNormal_Repr; eassumption|].
    pose proof (PosNormal_pos _ _ _ Py) as Hy.
    unfold Rdiv. apply Rmult_lt_compat_r; [apply Rinv_0_lt_compat; assumption|lra].
Qed.

Lemma fmul_mono p1 p2 s :
  PosNormal (-116) 12 p1 -> PosNormal (-116) 12 p2 -> PosNormal (-50) (-50) s ->
  B2R p1 <= B2R p2 -> B2R (fmul p1 s) <= B2R (fmul p2 s).
Proof.
  intros P1 P2 Ps Hle.
  destruct (Req_dec (B2R p1) (B2R p2)) as [Heq|Hne].
  - rewrite (PosNormal_inj _ _ _ _ p1 p2 P1 P2 Heq). lra.
  - destruct (fmul_spec p1 s P1 Ps) as [Q1 N1]. destruct (fmul_spec p2 s P2 Ps) as [Q2 N2].
    apply (nearest_mono _ _ _ _ N1 N2);
      [eapply PosNormal_Repr; eassumption|eapply PosNormal_Repr; eassumption|].
    pose proof (PosNormal_pos _ _ _ Ps) as Hs.
    apply Rmult_lt_compat_r; [assumption|lra].
Qed.

(** [int64(v)] of a positive float below [2^63] is the floor of its
    value. *)
Lemma int64_of_float64_floor lo hi v :
  PosNormal lo hi v -> B2R v < IZR (2 ^ 63) ->
  (0 <= int64_of_float64 v)%Z /\
  (IZR (int64_of_float64 v) <= B2R v < IZR (int64_of_float64 v) + 1).
Proof.
  intros (m & e & -> & Hd & _) Hlt. simpl in Hlt.
  pose proof (shiftl_floor (Z.pos m) e ltac:(lia)) as [Hf1 Hf2].
  assert (0 <= Z.shiftl (Z.pos m) e)%Z as Hnn by (apply Z.shiftl_nonneg; lia).
  assert (Z.shiftl (Z.pos m) e < 2 ^ 63)%Z as Hup by (apply lt_IZR; lra).
  unfold int64_of_float64, ftrunc, cond_Zopp, in_int64, int64_min, int64_max.
  destruct (Z.leb_spec (- 2 ^ 63) (Z.shiftl (Z.pos m) e)); [|lia].
  destruct (Z.leb_spec (Z.shiftl (Z.pos m) e) (2 ^ 63 - 1)); [|lia].
  simpl. split; [assumption|]. split; assumption.
Qed.

Lemma int64_of_float64_mono lo hi lo' hi' v w :
  PosNormal lo hi v -> PosNormal lo' hi' w -> B2R w < IZR (2 ^ 63) ->
  B2R v <= B2R w -> (int64_of_float64 v <= int64_of_float64 w)%Z.
Proof.
  intros Pv Pw Hw Hle.
  destruct (int64_of_float64_floor _ _ v Pv ltac:(lra)) as (_ & Hv1 & Hv2).
  destruct (int64_of_float64_floor _ _ w Pw Hw) as (_ & Hw1 & Hw2).
  assert (IZR (int64_of_float64 v) < IZR (int64_of_float64 w + 1)) as H
    by (rewrite plus_IZR; lra).
  apply lt_IZR in H. lia.
Qed.
End Stages.

(** ** The glyph index *)

Lemma wrap64_small z : - 2 ^ 63 <= z < 2 ^ 63 -> wrap64 z = z.
Proof.
intros H. unfold wrap64. rewrite Z.mod_small; [lia|].
change (2 ^ 64) with (2 ^ 63 + 2 ^ 63). lia.
Qed.

Section Spark.
Local Open Scope R_scope.

Lemma sparkIndex_scaled f max :
  sparkIndex f max = wrap64 (1 + int64_of_float64 (scaled f max)).
Proof. reflexivity. Qed.

Lemma percentile_spec f max :
  (1 <= f)%Z -> (f <= max)%Z -> (max < 2 ^ 63)%Z ->
  PosNormal (-116) 12 (fdiv (float64_of_int64 f) (float64_of_int64 max)) /\
  B2R (fdiv (float64_of_int64 f) (float64_of_int64 max)) <= 1.
Proof.
  intros H1 H2 H3.
  destruct (of_int_spec f ltac:(lia)) as [Px Nx].
  destruct (of_int_spec max ltac:(lia)) as [Py Ny].
  destruct (fdiv_spec _ _ Px Py) as [Pp Np]. split; [assumption|].
  apply (nearest_le _ _ 1 Np Repr_one).
  pose proof (of_int_mono f max H1 H2 H3) as Hle.
  pose proof (PosNormal_pos _ _ _ Py) as Hy.
  apply (Rmult_le_reg_r (B2R (float64_of_int64 max))); [assumption|].
  unfold Rdiv. rewrite Rmult_assoc, Rinv_l by lra. lra.
Qed.

Lemma scaled_spec f max :
  (1 <= f)%Z -> (f <= max)%Z -> (max < 2 ^ 63)%Z ->
  PosNormal (-114) 16 (scaled f max) /\ B2R (scaled f max) <= 6.
Proof.
  intros H1 H2 H3.
  destruct (percentile_spec f max H1 H2 H3) as [Pp Hp].
  destruct (fmul_spec _ _ Pp six_spec) as [Pt Nt]. split; [exact Pt|].
  apply (nearest_le _ _ 6 Nt Repr_six). rewrite B2R_six. lra.
Qed.

Lemma scaled_mono f1 f2 max :
  (1 <= f1)%Z -> (f1 <= f2)%Z -> (f2 <= max)%Z -> (max < 2 ^ 63)%Z ->
  B2R (scaled f1 max) <= B2R (scaled f2 max).
Proof.
  intros H1 H12 H2 H3.
  destruct (of_int_spec f1 ltac:(lia)) as [Px1 _].
  destruct (of_int_spec f2 ltac:(lia)) as [Px2 _].
  destruct (of_int_spec max ltac:(lia)) as [Py _].
  destruct (percentile_spec f1 max ltac:(lia) ltac:(lia) H3) as [Pp1 _].
  destruct (percentile_spec f2 max ltac:(lia) ltac:(lia) H3) as [Pp2 _].
  apply fmul_mono; try assumption; [apply six_spec|].
  apply fdiv_mono; try assumption.
  apply of_int_mono; lia.
Qed.

Lemma sparkIndex_range f max :
  (1 <= f)%Z -> (f <= max)%Z -> (max < 2 ^ 63)%Z ->
  (1 <= sparkIndex f max <= 7)%Z.
Proof.
  intros H1 H2 H3.
  destruct (scaled_spec f max H1 H2 H3) as [Pt Ht].
  destruct (int64_of_float64_floor _ _ _ Pt) as (Hnn & Hlo & Hhi).
  { change (2 ^ 63)%Z with 9223372036854775808%Z. lra. }
  assert (IZR (int64_of_float64 (scaled f max)) <= IZR 6) as Hle by lra.
  apply le_IZR in Hle.
  rewrite sparkIndex_scaled, wrap64_small; lia.
Qed.

Lemma sparkIndex_mono f1 f2 max :
  (1 <= f1)%Z -> (f1 <= f2)%Z -> (f2 <= max)%Z -> (max < 2 ^ 63)%Z ->
  (sparkIndex f1 max <= sparkIndex f2 max)%Z.
Proof.
  intros H1 H12 H2 H3.
  pose proof (sparkIndex_range f1 max ltac:(lia) ltac:(lia) H3) as R1.
  pose proof (sparkIndex_range f2 max ltac:(lia) ltac:(lia) H3) as R2.
  destruct (scaled_spec f1 max ltac:(lia) ltac:(lia) H3) as [Pt1 Ht1].
  destruct (scaled_spec f2 max ltac:(lia) ltac:(lia) H3) as [Pt2 Ht2].
  pose proof (scaled_mono f1 f2 max H1 H12 H2 H3) as Hm.
  assert (int64_of_float64 (scaled f1 max) <= int64_of_float64 (scaled f2 max))%Z as Hi.
  { eapply int64_of_float64_mono; try eassumption.
    change (2 ^ 63)%Z with 9223372036854775808%Z. lra. }
  destruct (int64_of_float64_floor _ _ _ Pt1) as (Hnn1 & _ & _).
  { change (2 ^ 63)%Z with 9223372036854775808%Z. lra. }
  destruct (int64_of_float64_floor _ _ _ Pt2) as (Hnn2 & Hlo2 & _).
  { change (2 ^ 63)%Z with 9223372036854775808%Z. lra. }
  assert (IZR (int64_of_float64 (scaled f2 max)) <= IZR 6) as Hle by lra.
  apply le_IZR in Hle.
  rewrite !sparkIndex_scaled, !wrap64_small; lia.
Qed.
End Spark.

(** ** Integers that binary64 holds exactly *)

Section Exact.
Local Open Scope R_scope.

Lemma Repr_exact (p : positive) :
  float64_exact (Z.pos p) -> Repr (IZR (Z.pos p)).
Proof.
  intros (m & e & He & Hm & Hp).
  assert (0 < 2 ^ e)%Z as H2e by (apply Z.pow_pos_nonneg; lia).
  destruct m as [|mp|mp]; try lia.
  set (d := Z.pos (digits2_pos mp)).
  assert (d <= 53)%Z as Hd.
  { pose proof (digits2_bounds mp) as [H1 _]. fold d in H1.
    destruct (Z_lt_le_dec 53 d) as [Hc|Hc]; [|lia].
    assert (2 ^ 53 <= 2 ^ (d - 1))%Z by (apply Z.pow_le_mono_r; lia). lia. }
  set (k := (53 - d)%Z).
  assert (0 < 2 ^ k)%Z as H2k by (apply Z.pow_pos_nonneg; lia).
  pose proof (digits_shift mp k ltac:(lia)) as Hds. fold d in Hds.
  destruct (Z.pos mp * 2 ^ k)%Z as [|m'|m'] eqn:Em'; try lia.
  exists m', (e - k)%Z. split.
  - simpl in Hds. unfold prec. lia.
  - rewrite <- Em', F2R_shift by lia. replace (e - k + k)%Z with e by lia.
    rewrite Hp. unfold F2R. rewrite mult_IZR, bpow_IZR by lia. reflexivity.
Qed.

Lemma binary_round_exact s (p : positive) :
  (Z.pos p <= 2 ^ 63)%Z -> float64_exact (Z.pos p) ->
  ftrunc (binary_round prec emax s p 0) = Some (cond_Zopp s (Z.pos p)).
Proof.
  intros Hp Hex.
  assert (1 <= Z.pos (digits2_pos p) <= 64)%Z as Hd.
  { pose proof (digits2_bounds p) as [H1 H2]. split; [lia|].
    destruct (Z_lt_le_dec 64 (Z.pos (digits2_pos p))) as [Hc|Hc]; [|lia].
    assert (2 ^ 64 <= 2 ^ (Z.pos (digits2_pos p) - 1))%Z by (apply Z.pow_le_mono_r; lia).
    change (2 ^ 64)%Z with (2 * 2 ^ 63)%Z in *. lia. }
  destruct (binary_round_correct s p 0) as (mz & ez & H1 & H2 & H3 & H4); try lia.
  rewrite H1. simpl. f_equal. f_equal.
  assert (F2R (Z.pos p) 0 = IZR (Z.pos p)) as E0
    by (unfold F2R; change (bpow 0) with 1; ring).
  rewrite E0 in H4.
  pose proof (nearest_exact _ _ H4 (Repr_exact p Hex)) as Hv.
  pose proof (shiftl_floor (Z.pos mz) ez ltac:(lia)) as [Hf1 Hf2].
  rewrite Hv in Hf1, Hf2.
  apply le_IZR in Hf1.
  assert (IZR (Z.pos p) < IZR (Z.shiftl (Z.pos mz) ez + 1)) as Hf3
    by (rewrite plus_IZR; exact Hf2).
  apply lt_IZR in Hf3. lia.
Qed.

Lemma float64_exact_opp n : float64_exact n -> float64_exact (- n).
Proof.
  intros (m & e & He & Hm & ->). exists (- m)%Z, e. repeat split; try assumption; lia.
Qed.

Lemma int64_float64_roundtrip n :
  in_int64 n = true -> float64_exact n ->
  int64_of_float64 (float64_of_int64 n) = n.
Proof.
  unfold in_int64, int64_min, int64_max. intros Hr Hex.
  apply andb_true_iff in Hr. destruct Hr as [Hlo Hhi].
  apply Z.leb_le in Hlo, Hhi.
  unfold int64_of_float64, float64_of_int64, binary_normalize.
  destruct n as [|p|p].
  - reflexivity.
  - rewrite binary_round_exact by (assumption || lia). simpl cond_Zopp.
    unfold in_int64, int64_min, int64_max.
    destruct (Z.leb_spec (- 2 ^ 63) (Z.pos p)); [|lia].
    destruct (Z.leb_spec (Z.pos p) (2 ^ 63 - 1)); [|lia]. reflexivity.
  - rewrite binary_round_exact.
    + unfold cond_Zopp. change (- Z.pos p)%Z with (Z.neg p).
      unfold in_int64, int64_min, int64_max.
      destruct (Z.leb_spec (- 2 ^ 63) (Z.neg p)); [|lia].
      destruct (Z.leb_spec (Z.neg p) (2 ^ 63 - 1)); [|lia]. reflexivity.
    + lia.
    + apply (float64_exact_opp (Z.neg p)). assumption.
Qed.

Lemma float64_exact_small n : (Z.abs n <= 2 ^ 53)%Z -> float64_exact n.
Proof.
  intros Hn. destruct (Z.eq_dec (Z.abs n) (2 ^ 53)%Z) as [E|E].
  - exists (n / 2)%Z, 1%Z.
    assert (n = 2 ^ 53 \/ n = - 2 ^ 53)%Z as [-> | ->] by lia; repeat split; try lia;
      reflexivity.
  - exists n, 0%Z. repeat split; lia.
Qed.
End Exact.

(** * Decimal literals and ParseInt *)

Section Decimal.

Lemma ParseUint_loop_digits d acc :
  ParseUint_loop (NilEmpty.string_of_uint d) acc = Some (uint_value d acc).
Proof. revert acc. induction d; intros acc; simpl; auto. Qed.

Lemma uint_value_acc d (acc : positive) :
  uint_value d (Z.pos acc) = Z.pos (Pos.of_uint_acc d acc).
Proof.
  revert acc. induction d; intros acc; simpl; try reflexivity;
    rewrite <- IHd; f_equal; lia.
Qed.

Lemma uint_value_0 d : uint_value d 0 = Z.of_N (Pos.of_uint d).
Proof.
  induction d; simpl; try reflexivity; try assumption;
    match goal with |- uint_value _ ?k = _ => change k with (Z.pos (Z.to_pos k)) end;
    apply uint_value_acc.
Qed.

Lemma ParseUint_to_uint p :
  ParseUint (NilEmpty.string_of_uint (Pos.to_uint p)) = Some (Z.pos p).
Proof.
  unfold ParseUint.
  destruct (NilEmpty.string_of_uint (Pos.to_uint p)) eqn:E.
  - exfalso. apply (DecimalPos.Unsigned.to_uint_nonnil p).
    destruct (Pos.to_uint p); simpl in E; congruence.
  - rewrite <- E, ParseUint_loop_digits, uint_value_0, DecimalPos.Unsigned.of_to.
    reflexivity.
Qed.

Lemma string_of_uint_head d c s :
  NilEmpty.string_of_uint d = String c s -> Ascii.eqb c "+" = false /\ Ascii.eqb c "-" = false.
Proof. destruct d; simpl; intros [= <- _]; split; reflexivity. Qed.

Lemma NilZero_to_uint p :
  NilZero.string_of_uint (Pos.to_uint p) = NilEmpty.string_of_uint (Pos.to_uint p).
Proof.
  pose proof (DecimalPos.Unsigned.to_uint_nonnil p).
  unfold NilZero.string_of_uint. destruct (Pos.to_uint p); congruence.
Qed.

Lemma ParseInt_decimal n :
  - 2 ^ 63 <= n < 2 ^ 63 -> ParseInt (decimal n) = Some n.
Proof.
  intros Hn. unfold decimal. destruct n as [|p|p].
  - reflexivity.
  - simpl. rewrite NilZero_to_uint.
    pose proof (ParseUint_to_uint p) as HP.
    destruct (NilEmpty.string_of_uint (Pos.to_uint p)) as [|c s] eqn:E;
      [discriminate HP|].
    destruct (string_of_uint_head _ _ _ E) as [H1 H2].
    unfold ParseInt. rewrite H1, H2, HP.
    destruct (Z.leb_spec (2 ^ 63) (Z.pos p)); [lia|]. reflexivity.
  - simpl. rewrite NilZero_to_uint.
    unfold ParseInt. change (Ascii.eqb "-" "+") with false.
    change (Ascii.eqb "-" "-") with true. cbv iota beta.
    rewrite ParseUint_to_uint.
    destruct (Z.ltb_spec (2 ^ 63) (Z.pos p)); [lia|]. reflexivity.
Qed.
End Decimal.

(** * Insertion sort through BuildSorter *)

Section SortProofs.

Lemma Less_middle (P Q : list Build) p x :
  Less (P ++ p :: x :: Q) (S (length P)) (length P) = (Id x <? Id p).
Proof.
  simpl. rewrite (list_lookup_middle P (x :: Q) p (length P) eq_refl).
  rewrite lookup_app_r by lia.
  replace (S (length P) - length P)%nat with 1%nat by lia. reflexivity.
Qed.

Lemma Swap_middle (P Q : list Build) p x :
  Swap (P ++ p :: x :: Q) (S (length P)) (length P) = P ++ x :: p :: Q.
Proof.
  simpl. rewrite (list_lookup_middle P (x :: Q) p (length P) eq_refl).
  rewrite lookup_app_r by lia.
  replace (S (length P) - length P)%nat with 1%nat by lia. simpl.
  rewrite (insert_app_r_alt P _ (length P)) by lia.
  replace (length P - length P)%nat with 0%nat by lia. simpl.
  rewrite insert_app_r_alt by lia.
  replace (S (length P) - length P)%nat with 1%nat by lia. reflexivity.
Qed.

Lemma sift_S (data : list Build) j :
  sift data (S j) = if Less data (S j) j then sift (Swap data (S j) j) j else data.
Proof. reflexivity. Qed.

Lemma sift_spec (P : list Build) x Q :
  StronglySorted le_Id P ->
  exists P1 P2,
    P = P1 ++ P2 /\
    sift (P ++ x :: Q) (length P) = P1 ++ x :: P2 ++ Q /\
    Forall (fun p => Id p <= Id x) P1 /\
    Forall (fun p => Id x < Id p) P2.
Proof.
  revert Q. induction P as [|p P IH] using rev_ind; intros Q HS.
  - exists [], []. simpl. auto.
  - rewrite length_app, Nat.add_1_r, sift_S.
    rewrite <- (app_assoc P [p]). simpl app.
    rewrite Less_middle, Swap_middle.
    apply StronglySorted_app in HS. destruct HS as (Hall & HSP & _).
    destruct (Z.ltb_spec (Id x) (Id p)) as [Hlt|Hge].
    + destruct (IH (p :: Q) HSP) as (P1 & P2 & -> & E & H1 & H2).
      exists P1, (P2 ++ [p]). repeat split.
      * now rewrite app_assoc.
      * rewrite E. now rewrite <- (app_assoc P2 [p]).
      * assumption.
      * apply Forall_app. split; [assumption|]. now constructor.
    + exists (P ++ [p]), []. repeat split.
      * now rewrite app_nil_r.
      * now rewrite <- app_assoc.
      * apply Forall_app. split; [|now constructor].
        apply Forall_forall. intros a Ha.
        assert (le_Id a p) as Hap by (apply Hall; [assumption|set_solver]).
        unfold le_Id in Hap. lia.
      * constructor.
Qed.

Lemma sift_sorted (P : list Build) x Q :
  StronglySorted le_Id P ->
  exists P', sift (P ++ x :: Q) (length P) = P' ++ Q /\
             length P' = S (length P) /\
             StronglySorted le_Id P' /\ P' ≡ₚ P ++ [x].
Proof.
  intros HS. destruct (sift_spec P x Q HS) as (P1 & P2 & -> & E & H1 & H2).
  exists (P1 ++ x :: P2). repeat split.
  - rewrite E. now rewrite <- app_assoc.
  - rewrite !length_app. simpl. lia.
  - apply StronglySorted_app in HS. destruct HS as (Hall & HS1 & HS2).
    apply StronglySorted_app. repeat split.
    + intros a b Ha Hb. apply elem_of_cons in Hb. destruct Hb as [->|Hb].
      * rewrite Forall_forall in H1. apply H1, Ha.
      * now apply Hall.
    + assumption.
    + apply StronglySorted_cons. split; [|assumption].
      eapply Forall_impl; [exact H2|]. intros a Ha. unfold le_Id. simpl in Ha. lia.
  - rewrite <- app_assoc. apply Permutation_app_head.
    change (x :: P2) with ([x] ++ P2). apply Permutation_app_comm.
Qed.

Lemma insertion_loop (B A : list Build) :
  StronglySorted le_Id A ->
  StronglySorted le_Id (fold_left sift (seq (length A) (length B)) (A ++ B)) /\
  fold_left sift (seq (length A) (length B)) (A ++ B) ≡ₚ A ++ B.
Proof.
  revert A. induction B as [|x B IH]; intros A HS.
  - simpl. rewrite app_nil_r. auto.
  - simpl length. simpl seq. simpl fold_left.
    destruct (sift_sorted A x B HS) as (A' & E & Hlen & HS' & Hperm).
    rewrite E, <- Hlen.
    destruct (IH A' HS') as [H1 H2]. split; [assumption|].
    rewrite H2, Hperm, <- app_assoc. reflexivity.
Qed.

Lemma sort_Sort_spec (builds : list Build) :
  StronglySorted le_Id (sort_Sort builds) /\ sort_Sort builds ≡ₚ builds.
Proof.
  unfold sort_Sort, insertionSort. destruct builds as [|x B].
  - simpl. split; [constructor|reflexivity].
  - change (Len (x :: B)) with (S (length B)).
    replace (S (length B) - 1)%nat with (length B) by lia.
    apply (insertion_loop B [x]). repeat constructor.
Qed.
End SortProofs.

(** * The claims *)

(** ** RenderHistory: the scan for max *)

Lemma scanMax_fold_ge l acc : acc <= fold_left scanMax l acc.
Proof.
  revert acc. induction l as [|b l IH]; intros acc; simpl; [lia|].
  specialize (IH (scanMax acc b)). unfold scanMax in *.
  destruct (Z.gtb_spec (Failures b) acc); lia.
Qed.

Lemma scanMax_fold_upper l acc b :
  b ∈ l -> Failures b <= fold_left scanMax l acc.
Proof.
  revert acc. induction l as [|x l IH]; intros acc Hb.
  - inversion Hb.
  - simpl. apply elem_of_cons in Hb. destruct Hb as [->|Hb]; [|now apply IH].
    pose proof (scanMax_fold_ge l (scanMax acc x)) as H. unfold scanMax in *.
    destruct (Z.gtb_spec (Failures x) acc); lia.
Qed.

Lemma scanMax_fold_attained l acc :
  fold_left scanMax l acc = acc \/
  exists b, b ∈ l /\ Failures b = fold_left scanMax l acc.
Proof.
  revert acc. induction l as [|x l IH]; intros acc; simpl; [now left|].
  destruct (IH (scanMax acc x)) as [E|(b & Hb & E)].
  - rewrite E. unfold scanMax. destruct (Z.gtb_spec (Failures x) acc).
    + right. exists x. split; [left|reflexivity].
    + now left.
  - right. exists b. split; [now right|assumption].
Qed.

Lemma windowMax_bounds (builds : list Build) (count : Z) :
  0 <= windowMax builds count /\
  (forall b, b ∈ window builds count -> Failures b <= windowMax builds count) /\
  (windowMax builds count = 0 \/
   exists b, b ∈ window builds count /\ Failures b = windowMax builds count).
Proof.
  unfold windowMax. split; [apply scanMax_fold_ge|split].
  - intros b Hb. now apply scanMax_fold_upper.
  - apply scanMax_fold_attained.
Qed.

(** C1, as amended: the maximum that [RenderHistory] quantizes against is
    the largest of 0 and the [Failures] of every build in the trailing
    window, whether the build is complete or not. *)
Theorem windowMax_spec (builds : list Build) (count : Z) :
  0 <= windowMax builds count /\
  (forall b, b ∈ window builds count -> Failures b <= windowMax builds count) /\
  (windowMax builds count = 0 \/
   exists b, b ∈ window builds count /\ Failures b = windowMax builds count).
Proof. apply windowMax_bounds. Qed.

(** C1, as stated, fails: a build still in progress raises the maximum
    above the largest count among the complete builds. *)
Lemma windowMax_counts_running_build :
  windowMax twoBuilds 2 = 5 /\ completeMax twoBuilds 2 = 2 /\
  windowMax twoBuilds 2 <> completeMax twoBuilds 2.
Proof. vm_compute. repeat split; congruence. Qed.

(** A running build with a positive count is what [FetchDetails] leaves
    when the server reports failures before the run ends. *)
Lemma running_build_reachable :
  fst (FetchDetails exampleHttp (stub 1 "http://ci/job/a/1/")) =
  mkBuild 1 "http://ci/job/a/1/" (time_Unix 1) 5 false.
Proof. vm_compute. reflexivity. Qed.

(** ** FetchDetails *)

Lemma scanAction_testResult acc a :
  scanAction acc a =
  match testResult a with
  | Some action => fst (GetInt64 action "failCount")
  | None => acc
  end.
Proof.
  destruct a as [|?|?|?|?|?|action]; try reflexivity.
  unfold scanAction, testResult, AsJsonObject, GetString.
  destruct (action !! "_class") as [[|?|?|?|class|?|?]|]; try reflexivity.
  simpl. destruct (String.eqb class "hudson.tasks.junit.TestResultAction"); reflexivity.
Qed.

Lemma testResults_cons a actions :
  testResults (a :: actions) =
  match testResult a with
  | Some action => action :: testResults actions
  | None => testResults actions
  end.
Proof. reflexivity. Qed.

Lemma scanActions_fold actions acc :
  fold_left scanAction actions acc =
  match last (testResults actions) with
  | Some action => fst (GetInt64 action "failCount")
  | None => acc
  end.
Proof.
  revert acc. induction actions as [|a actions IH]; intros acc; [reflexivity|].
  simpl fold_left. rewrite IH, testResults_cons, scanAction_testResult.
  destruct (testResult a) as [action|]; [|reflexivity].
  rewrite last_cons. destruct (last (testResults actions)); reflexivity.
Qed.

Lemma scanActions_last details : scanActions details = lastFailCount details.
Proof.
  unfold scanActions, lastFailCount.
  destruct (GetArray details "actions"); [apply scanActions_fold|reflexivity].
Qed.

(** C2: when the detail page is usable, the count [FetchDetails] starts from
    is the [failCount] of the last test-result action (0 when there is
    none); the stored [Failures] is -1 when that count is 0 and the result
    is ["FAILURE"], and is that count in every other case, so a positive
    count is kept. *)
Theorem FetchDetails_failures http b details result ms :
  http (Url b +:+ "api/json") = Decoded details ->
  GetString details "result" = (result, true) ->
  GetInt64 details "timestamp" = (ms, true) ->
  snd (FetchDetails http b) = None /\
  scanActions details = lastFailCount details /\
  (lastFailCount details = 0 /\ result = "FAILURE" ->
   Failures (fst (FetchDetails http b)) = -1) /\
  (~ (lastFailCount details = 0 /\ result = "FAILURE") ->
   Failures (fst (FetchDetails http b)) = lastFailCount details) /\
  (0 < lastFailCount details ->
   Failures (fst (FetchDetails http b)) = lastFailCount details).
Proof.
  intros Hhttp Hres Hts. unfold FetchDetails. rewrite Hhttp, Hres, Hts. simpl negb.
  cbv iota. destruct (GetBool details "building") as [building ok].
  rewrite scanActions_last. simpl.
  split; [reflexivity|]. split; [reflexivity|].
  destruct (Z.eqb_spec (lastFailCount details) 0) as [E0|E0];
    destruct (String.eqb_spec result "FAILURE") as [ER|ER]; simpl;
    repeat split; intros; try tauto; try lia.
Qed.

Lemma FetchDetails_failures_witness :
  snd (FetchDetails exampleHttp (stub 2 "http://ci/job/a/2/")) = None /\
  lastFailCount failedDetails = 0 /\
  Failures (fst (FetchDetails exampleHttp (stub 2 "http://ci/job/a/2/"))) = -1.
Proof.
  destruct (FetchDetails_failures exampleHttp (stub 2 "http://ci/job/a/2/")
              failedDetails "FAILURE" 1000)
    as (H1 & _ & H3 & _); [reflexivity|reflexivity|reflexivity|].
  split; [exact H1|]. split; [reflexivity|]. apply H3. split; reflexivity.
Defined.

(** ** FetchJobs in src/jitdash.go *)




Lemma Part000_jobs_fold http i jobObjects jobs :
  fold_left
    (fun jobs j =>
       match Part000.ProcessJobObject http i j with
       | Some job => jobs ++ [job]
       | None => jobs
       end)
    jobObjects jobs
  = jobs ++ omap (Part000.ProcessJobObject http i) jobObjects.
Proof.
  revert jobs. induction jobObjects as [|j l IH]; intros jobs; simpl.
  - now rewrite app_nil_r.
  - rewrite IH. destruct (Part000.ProcessJobObject http i j); [|reflexivity].
    now rewrite <- app_assoc.
Qed.

Lemma Part000_fetchFolder_app http i jobs folderUrl :
  Part000.fetchFolder http i jobs folderUrl = jobs ++ Part000_folderJobs http i folderUrl.
Proof.
  unfold Part000.fetchFolder, Part000_folderJobs.
  destruct (http folderUrl) as [| |folder]; try (now rewrite app_nil_r).
  destruct (GetArray folder "jobs"); [apply Part000_jobs_fold|now rewrite app_nil_r].
Qed.




(** ** The glyph index *)

(** C4: a failure count of 0 selects glyph 0 and a count of -1 glyph 7; a
    count [f] with [1 <= f <= max] selects a glyph between 1 and 7, and a
    larger count under the same [max] never selects a lower glyph. *)
Theorem glyphIndex_spec (f f' max : Z) :
  1 <= f -> f <= f' -> f' <= max -> max < 2 ^ 63 ->
  glyphIndex 0 max = 0 /\
  glyphIndex (-1) max = 7 /\
  1 <= glyphIndex f max <= 7 /\
  1 <= glyphIndex f' max <= 7 /\
  glyphIndex f max <= glyphIndex f' max.
Proof.
  intros H1 H2 H3 H4.
  assert (forall g, 1 <= g -> glyphIndex g max = sparkIndex g max) as Hg.
  { intros g Hg. unfold glyphIndex.
    destruct (Z.eqb_spec g 0); [lia|]. destruct (Z.eqb_spec g (-1)); [lia|reflexivity]. }
  rewrite (Hg f), (Hg f') by lia. repeat split; try reflexivity.
  - apply sparkIndex_range; lia.
  - apply sparkIndex_range; lia.
  - apply sparkIndex_range; lia.
  - apply sparkIndex_range; lia.
  - apply sparkIndex_mono; lia.
Qed.

Lemma glyphIndex_spec_witness :
  glyphIndex 0 5 = 0 /\ glyphIndex (-1) 5 = 7 /\
  1 <= glyphIndex 2 5 <= 7 /\ 1 <= glyphIndex 4 5 <= 7 /\
  glyphIndex 2 5 <= glyphIndex 4 5.
Proof. apply (glyphIndex_spec 2 4 5); [lia|lia|lia|reflexivity]. Defined.

(** ** The order of a job's builds *)

Lemma jobListing_sorted http i jobIf name url builds :
  jobListing http i jobIf = Some (name, url, builds) ->
  StronglySorted le_Id builds /\
  exists details buildObjects,
    http (url +:+ "api/json") = Decoded details /\
    GetArray details "builds" = Some buildObjects /\
    builds ≡ₚ collectBuilds buildObjects.
Proof.
  unfold jobListing. intros H.
  destruct (AsJsonObject jobIf) as [job|]; [|discriminate].
  destruct (GetString job "_class") as [class ok].
  destruct (negb ok || negb (String.eqb class "hudson.model.FreeStyleProject"));
    [discriminate|].
  destruct (GetString job "name") as [name' ok'].
  destruct (negb ok'); [discriminate|].
  destruct (excluded i name'); [discriminate|].
  destruct (GetString job "url") as [url' ok''].
  destruct (negb ok''); [discriminate|].
  destruct (http (url' +:+ "api/json")) as [| |details] eqn:Ehttp; try discriminate.
  destruct (GetArray details "builds") as [buildObjects|] eqn:Earr; [|discriminate].
  injection H as _ <- <-.
  destruct (sort_Sort_spec (collectBuilds buildObjects)) as [HS HP].
  split; [exact HS|]. now exists details, buildObjects.
Qed.

(** C5: whatever the order of the entries of the raw [builds] array, the
    [Builds] of a job that [ProcessJobObject] returns are in non-decreasing
    order of [Id]; they are the accepted entries of that array, rearranged. *)
Theorem ProcessJobObject_sorted http i jobIf job :
  Part000.ProcessJobObject http i jobIf = Some job ->
  StronglySorted le_Id (Builds job) /\
  exists details buildObjects,
    http (JobUrl job +:+ "api/json") = Decoded details /\
    GetArray details "builds" = Some buildObjects /\
    Builds job ≡ₚ collectBuilds buildObjects.
Proof.
  unfold Part000.ProcessJobObject. intros H.
  destruct (jobListing http i jobIf) as [[[name url] builds]|] eqn:E; [|discriminate].
  injection H as <-. simpl. now apply (jobListing_sorted http i jobIf name url builds).
Qed.

Lemma ProcessJobObject_sorted_witness :
  Part000.ProcessJobObject exampleHttp exampleInstance jobObject = Some sortedJob /\
  StronglySorted le_Id (Builds sortedJob) /\
  exists details buildObjects,
    exampleHttp (JobUrl sortedJob +:+ "api/json") = Decoded details /\
    GetArray details "builds" = Some buildObjects /\
    Builds sortedJob ≡ₚ collectBuilds buildObjects.
Proof.
  assert (Part000.ProcessJobObject exampleHttp exampleInstance jobObject = Some sortedJob)
    as H by (vm_compute; reflexivity).
  split; [exact H|].
  exact (ProcessJobObject_sorted exampleHttp exampleInstance jobObject sortedJob H).
Defined.

(** [FetchDetails] never changes the number of a build. *)
Lemma FetchDetails_Id http b : Id (fst (FetchDetails http b)) = Id b.
Proof.
  unfold FetchDetails.
  destruct (http (Url b +:+ "api/json")) as [| |details]; try reflexivity.
  destruct (GetString details "result") as [result ok]. destruct (negb ok); [reflexivity|].
  destruct (GetInt64 details "timestamp") as [ms ok']. destruct (negb ok'); [reflexivity|].
  destruct (GetBool details "building") as [building ok'']. reflexivity.
Qed.

Lemma drop_sorted {A : Type} (R : A -> A -> Prop) n (l : list A) :
  StronglySorted R l -> StronglySorted R (drop n l).
Proof.
  intros HS. rewrite <- (take_drop n l) in HS.
  now apply StronglySorted_app in HS as (_ & _ & HS).
Qed.

Lemma truncate_drop builds maxBuilds retained :
  truncate builds maxBuilds = Ret retained -> exists n, retained = drop n builds.
Proof.
  unfold truncate, slice_from. intros H.
  destruct (Z.of_nat (length builds) >? maxBuilds).
  - destruct ((0 <=? wrap64 (Z.of_nat (length builds) - maxBuilds)) &&
              (wrap64 (Z.of_nat (length builds) - maxBuilds) <=? Z.of_nat (length builds)));
      [|discriminate].
    injection H as <-. eauto.
  - injection H as <-. now exists 0%nat.
Qed.

(** The same order holds in src/jitdash.go, where [ProcessJobObject] also
    truncates the list and fetches the details. *)
Lemma Jitdash_ProcessJobObject_sorted http i jobIf maxBuilds job :
  Jitdash.ProcessJobObject http i jobIf maxBuilds = Ret (Some job) ->
  StronglySorted le_Id (Builds job).
Proof.
  unfold Jitdash.ProcessJobObject. intros H.
  destruct (jobListing http i jobIf) as [[[name url] builds]|] eqn:E; [|discriminate].
  apply jobListing_sorted in E as [HS _].
  destruct (truncate builds maxBuilds) as [|retained] eqn:ET; [discriminate|].
  simpl in H. injection H as <-. simpl.
  apply truncate_drop in ET as [n ->].
  unfold fetchAll. apply (StronglySorted_fmap _ le_Id le_Id).
  - intros x y Hxy. unfold le_Id in *. now rewrite !FetchDetails_Id.
  - now apply drop_sorted.
Qed.

(** ** Truncation to the retention window *)

(** C6: with [0 <= maxBuilds], truncating a sorted list of [n] builds keeps
    [min n maxBuilds] of them, and what it keeps is the tail of the list:
    no dropped build has a higher [Id] than a retained one. *)
Theorem truncate_retains builds maxBuilds :
  0 <= maxBuilds ->
  Z.of_nat (length builds) < 2 ^ 63 ->
  StronglySorted le_Id builds ->
  exists dropped retained,
    truncate builds maxBuilds = Ret retained /\
    builds = dropped ++ retained /\
    Z.of_nat (length retained) = Z.min (Z.of_nat (length builds)) maxBuilds /\
    forall d r, d ∈ dropped -> r ∈ retained -> Id d <= Id r.
Proof.
  intros Hmb Hlen HS. unfold truncate, slice_from.
  set (len := Z.of_nat (length builds)) in *.
  destruct (Z.gtb_spec len maxBuilds) as [Hgt|Hle].
  - rewrite wrap64_small by lia.
    destruct (Z.leb_spec 0 (len - maxBuilds)); [|lia].
    destruct (Z.leb_spec (len - maxBuilds) len); [|lia]. simpl.
    exists (take (Z.to_nat (len - maxBuilds)) builds),
           (drop (Z.to_nat (len - maxBuilds)) builds).
    split; [reflexivity|]. split; [now rewrite take_drop|]. split.
    + rewrite length_drop. unfold len in *. lia.
    + intros d r Hd Hr. rewrite <- (take_drop (Z.to_nat (len - maxBuilds)) builds) in HS.
      apply StronglySorted_app in HS as (Hall & _ & _). now apply Hall.
  - exists [], builds. split; [reflexivity|]. split; [reflexivity|]. split; [lia|].
    intros d r Hd. inversion Hd.
Qed.

Lemma truncate_retains_witness :
  exists dropped retained,
    truncate [stub 1 "a"; stub 2 "b"; stub 3 "c"] 2 = Ret retained /\
    [stub 1 "a"; stub 2 "b"; stub 3 "c"] = dropped ++ retained /\
    Z.of_nat (length retained) = Z.min (Z.of_nat 3) 2 /\
    forall d r, d ∈ dropped -> r ∈ retained -> Id d <= Id r.
Proof.
  apply (truncate_retains [stub 1 "a"; stub 2 "b"; stub 3 "c"] 2).
  - lia.
  - reflexivity.
  - repeat constructor; unfold le_Id; simpl; lia.
Defined.

(** C9: for a [maxBuilds] of type [int64] the truncation panics exactly when
    [maxBuilds] is negative; in particular it panics for every job with at
    least one build under a negative [maxBuilds], and never under a
    non-negative one. *)
Theorem truncate_panics_iff_negative builds maxBuilds :
  in_int64 maxBuilds = true ->
  Z.of_nat (length builds) < 2 ^ 63 ->
  truncate builds maxBuilds = Panic <-> maxBuilds < 0.
Proof.
  unfold in_int64, int64_min, int64_max. intros Hmb Hlen.
  apply andb_true_iff in Hmb as [Hlo Hhi]. apply Z.leb_le in Hlo, Hhi.
  unfold truncate, slice_from. set (len := Z.of_nat (length builds)) in *.
  assert (0 <= len) by (unfold len; lia).
  destruct (Z.gtb_spec len maxBuilds) as [Hgt|Hle].
  - destruct (Z_lt_le_dec maxBuilds 0) as [Hneg|Hnn].
    + split; [intros _; assumption|intros _].
      destruct (Z_lt_le_dec (len - maxBuilds) (2 ^ 63)) as [Hsmall|Hbig].
      * rewrite wrap64_small by lia.
        destruct (Z.leb_spec 0 (len - maxBuilds)); [|reflexivity].
        destruct (Z.leb_spec (len - maxBuilds) len); [lia|reflexivity].
      * assert (wrap64 (len - maxBuilds) = len - maxBuilds - 2 ^ 64) as ->.
        { unfold wrap64.
          replace (len - maxBuilds + 2 ^ 63) with (len - maxBuilds - 2 ^ 63 + 1 * 2 ^ 64)
            by (change (2 ^ 64) with (2 * 2 ^ 63); lia).
          rewrite Z.mod_add by lia. rewrite Z.mod_small; [|change (2 ^ 64) with (2 * 2 ^ 63); lia].
          change (2 ^ 64) with (2 * 2 ^ 63). lia. }
        destruct (Z.leb_spec 0 (len - maxBuilds - 2 ^ 64)); [|reflexivity].
        change (2 ^ 64) with (2 * 2 ^ 63) in *. lia.
    + rewrite wrap64_small by lia.
      destruct (Z.leb_spec 0 (len - maxBuilds)); [|lia].
      destruct (Z.leb_spec (len - maxBuilds) len); [|lia]. simpl.
      split; [discriminate|lia].
  - split; [discriminate|lia].
Qed.

Lemma truncate_panics_iff_negative_witness :
  truncate [stub 1 "a"] (-1) = Panic <-> -1 < 0.
Proof.
  apply (truncate_panics_iff_negative [stub 1 "a"] (-1)); reflexivity.
Defined.

(** ** FetchDetails on error *)

(** The four ways [FetchDetails] fails. *)
Lemma FetchDetails_error_cases http b err :
  snd (FetchDetails http b) = Some err ->
  (err = netError /\ http (Url b +:+ "api/json") = NetError) \/
  (err = decodeError /\ http (Url b +:+ "api/json") = DecodeError) \/
  (exists details, http (Url b +:+ "api/json") = Decoded details /\
     ((err = missingResultError /\ snd (GetString details "result") = false) \/
      (err = missingTimestampError /\ snd (GetInt64 details "timestamp") = false))).
Proof.
  unfold FetchDetails.
  destruct (http (Url b +:+ "api/json")) as [| |details]; simpl.
  - intros [= <-]. now left.
  - intros [= <-]. right. now left.
  - intros H. right. right. exists details. split; [reflexivity|].
    destruct (GetString details "result") as [result ok].
    destruct ok; simpl in *; [|injection H as <-; now left].
    destruct (GetInt64 details "timestamp") as [ms ok'].
    destruct ok'; simpl in *; [|injection H as <-; now right].
    destruct (GetBool details "building") as [building ok'']. discriminate.
Qed.

(** C7: when [FetchDetails] returns an error it has not touched the build;
    a stub keeps the zero [Timestamp], [Failures] 0 and [Complete] false,
    and [RenderHistory] shows it as building. *)
Theorem FetchDetails_atomic http b b' err :
  FetchDetails http b = (b', Some err) ->
  b' = b /\
  forall id url, b = stub id url ->
    Timestamp b' = 0 /\ Failures b' = 0 /\ Complete b' = false /\
    forall max, renderBuild max b' = Ret (anchor url "building" "B").
Proof.
  intros H.
  assert (b' = b) as ->.
  { revert H. unfold FetchDetails.
    destruct (http (Url b +:+ "api/json")) as [| |details]; try (now intros [= <- _]).
    destruct (GetString details "result") as [result ok].
    destruct (negb ok); [now intros [= <- _]|].
    destruct (GetInt64 details "timestamp") as [ms ok'].
    destruct (negb ok'); [now intros [= <- _]|].
    destruct (GetBool details "building") as [building ok'']. discriminate. }
  split; [reflexivity|]. intros id url ->. repeat split.
Qed.

Lemma FetchDetails_atomic_witness :
  stub 7 "http://ci/job/gone/7/" = stub 7 "http://ci/job/gone/7/" /\
  forall id url, stub 7 "http://ci/job/gone/7/" = stub id url ->
    Timestamp (stub 7 "http://ci/job/gone/7/") = 0 /\
    Failures (stub 7 "http://ci/job/gone/7/") = 0 /\
    Complete (stub 7 "http://ci/job/gone/7/") = false /\
    forall max, renderBuild max (stub 7 "http://ci/job/gone/7/")
                = Ret (anchor url "building" "B").
Proof.
  apply (FetchDetails_atomic exampleHttp (stub 7 "http://ci/job/gone/7/")
           (stub 7 "http://ci/job/gone/7/") netError).
  reflexivity.
Defined.

(** ** GetInt64 on the two encodings of a number *)

(** C8, as amended: for every integer [n] of the [int64] range that binary64
    holds exactly (a mantissa below [2^53] times a power of two, so every
    [n] with [|n| <= 2^53]), [GetInt64] returns [(n, true)] both when the
    key holds the float64 encoding of [n] and when it holds the
    [json.Number] with the decimal literal of [n]. *)
Theorem GetInt64_encodings (o1 o2 : JsonObject) key n :
  in_int64 n = true ->
  float64_exact n ->
  o1 !! key = Some (JFloat (float64_of_int64 n)) ->
  o2 !! key = Some (JNumber (decimal n)) ->
  GetInt64 o1 key = (n, true) /\ GetInt64 o2 key = (n, true).
Proof.
  intros Hr Hex H1 H2. unfold GetInt64. rewrite H1, H2. split.
  - now rewrite int64_float64_roundtrip.
  - unfold Number_Int64. rewrite ParseInt_decimal; [reflexivity|].
    unfold in_int64, int64_min, int64_max in Hr.
    apply andb_true_iff in Hr as [Hlo Hhi]. apply Z.leb_le in Hlo, Hhi. lia.
Qed.

Lemma GetInt64_encodings_witness :
  GetInt64 {[ "number" := JFloat (float64_of_int64 42) ]} "number" = (42, true) /\
  GetInt64 {[ "number" := JNumber (decimal 42) ]} "number" = (42, true).
Proof.
  apply (GetInt64_encodings {[ "number" := JFloat (float64_of_int64 42) ]}
           {[ "number" := JNumber (decimal 42) ]} "number" 42).
  - reflexivity.
  - exists 42, 0. repeat split; reflexivity.
  - reflexivity.
  - reflexivity.
Defined.

(** C8, as stated, fails at [2^53 + 1]: the float64 encoding is [2^53], and
    the two encodings decode to different integers. *)
Lemma GetInt64_encodings_differ :
  GetInt64 {[ "number" := JFloat (float64_of_int64 inexact) ]} "number"
    = (9007199254740992, true) /\
  GetInt64 {[ "number" := JNumber (decimal inexact) ]} "number"
    = (9007199254740993, true).
Proof. split; vm_compute; reflexivity. Qed.

(** ** RenderHistory stays inside the alphabet *)

Lemma start_spec builds count :
  Z.of_nat (length builds) - 2 ^ 63 < count ->
  start builds count
  = Z.of_nat (length builds) - Z.min count (Z.of_nat (length builds)).
Proof.
  intros H. unfold start, padding. simpl. apply wrap64_small. lia.
Qed.

Lemma start_wraps builds count :
  - 2 ^ 63 <= count -> count <= Z.of_nat (length builds) - 2 ^ 63 ->
  Z.of_nat (length builds) < 2 ^ 63 ->
  start builds count < 0.
Proof.
  intros Hlo Hhi Hlen. unfold start, padding. simpl.
  rewrite Z.min_l by lia. unfold wrap64.
  replace (Z.of_nat (length builds) - count + 2 ^ 63)
    with (Z.of_nat (length builds) - count - 2 ^ 63 + 1 * 2 ^ 64)
    by (change (2 ^ 64) with (2 ^ 63 + 2 ^ 63); lia).
  rewrite Z.mod_add by (intros E; discriminate E).
  rewrite Z.mod_small; [lia|].
  change (2 ^ 64) with (2 ^ 63 + 2 ^ 63). lia.
Qed.

Lemma window_drop builds count :
  Z.of_nat (length builds) - 2 ^ 63 < count ->
  window builds count
  = drop (Z.to_nat (Z.of_nat (length builds) - count)) builds.
Proof.
  intros H. unfold window. rewrite (start_spec _ _ H).
  destruct (Z.ltb_spec (Z.of_nat (length builds) - Z.min count (Z.of_nat (length builds))) 0);
    [lia|].
  destruct (Z.le_ge_cases count (Z.of_nat (length builds))).
  - now rewrite Z.min_l by lia.
  - rewrite Z.min_r by lia. rewrite Z.sub_diag.
    now replace (Z.to_nat (Z.of_nat (length builds) - count)) with 0%nat by lia.
Qed.

Lemma window_elem builds count b : b ∈ window builds count -> b ∈ builds.
Proof.
  unfold window. destruct (start builds count <? 0); intros H.
  - now apply elem_of_nil in H.
  - rewrite <- (take_drop (Z.to_nat (start builds count)) builds).
    apply elem_of_app. now right.
Qed.

Lemma windowMax_int64 builds count :
  Forall (fun b => in_int64 (Failures b) = true) builds ->
  windowMax builds count < 2 ^ 63.
Proof.
  intros Hall. destruct (windowMax_bounds builds count) as (_ & _ & [->|(b & Hb & <-)]).
  - reflexivity.
  - apply window_elem in Hb. rewrite Forall_forall in Hall. specialize (Hall b Hb).
    unfold in_int64, int64_max in Hall. apply andb_true_iff in Hall as [_ Hhi].
    apply Z.leb_le in Hhi. lia.
Qed.

Lemma positive_build_glyph (job : Job) (count : Z) (b : Build) :
  Forall (fun b => in_int64 (Failures b) = true) (Builds job) ->
  b ∈ window (Builds job) count ->
  Complete b = true ->
  0 < Failures b ->
  Failures b <= windowMax (Builds job) count /\
  glyphIndex (Failures b) (windowMax (Builds job) count)
    = sparkIndex (Failures b) (windowMax (Builds job) count) /\
  1 <= sparkIndex (Failures b) (windowMax (Builds job) count) <= 7 /\
  exists spark,
    spark ∈ sparks /\
    renderBuild (windowMax (Builds job) count) b
      = Ret (anchor (Url b) (title_of (Failures b)) spark).
Proof.
  intros Hall Hb Hc Hpos.
  pose proof (windowMax_int64 _ count Hall) as Hmax.
  destruct (windowMax_bounds (Builds job) count) as (_ & Hup & _).
  specialize (Hup b Hb).
  set (max := windowMax (Builds job) count) in *.
  pose proof (sparkIndex_range (Failures b) max ltac:(lia) Hup Hmax) as Hrange.
  assert (glyphIndex (Failures b) max = sparkIndex (Failures b) max) as Hg.
  { unfold glyphIndex. destruct (Z.eqb_spec (Failures b) 0); [lia|].
    destruct (Z.eqb_spec (Failures b) (-1)); [lia|reflexivity]. }
  split; [exact Hup|]. split; [exact Hg|]. split; [exact Hrange|].
  unfold renderBuild. rewrite Hc, Hg. unfold spark_at.
  destruct (Z.ltb_spec (sparkIndex (Failures b) max) 0); [lia|].
  destruct (sparks !! Z.to_nat (sparkIndex (Failures b) max)) as [g|] eqn:Eg.
  - exists g. split; [|reflexivity]. eapply list_elem_of_lookup_2, Eg.
  - apply lookup_ge_None in Eg. simpl in Eg. lia.
Qed.

(** C10: for every build list of [int64] failure counts and every [count],
    a complete build of the window with a positive [Failures] is at most the
    window's [max], its index into [sparks] lies between 1 and 7, and its
    glyph is emitted without a panic. *)
Theorem RenderHistory_index_in_alphabet (job : Job) (count : Z) (b : Build) :
  Forall (fun b => in_int64 (Failures b) = true) (Builds job) ->
  b ∈ window (Builds job) count ->
  Complete b = true ->
  0 < Failures b ->
  Failures b <= windowMax (Builds job) count /\
  glyphIndex (Failures b) (windowMax (Builds job) count)
    = sparkIndex (Failures b) (windowMax (Builds job) count) /\
  1 <= sparkIndex (Failures b) (windowMax (Builds job) count) <= 7 /\
  exists spark,
    spark ∈ sparks /\
    renderBuild (windowMax (Builds job) count) b
      = Ret (anchor (Url b) (title_of (Failures b)) spark).
Proof. apply positive_build_glyph. Qed.

Lemma RenderHistory_index_in_alphabet_witness :
  Failures (mkBuild 2 "http://ci/job/a/2/" 0 2 true)
    <= windowMax (Builds (mkJob "a" "http://ci/job/a/" twoBuilds)) 2 /\
  glyphIndex (Failures (mkBuild 2 "http://ci/job/a/2/" 0 2 true))
             (windowMax (Builds (mkJob "a" "http://ci/job/a/" twoBuilds)) 2)
    = sparkIndex (Failures (mkBuild 2 "http://ci/job/a/2/" 0 2 true))
                 (windowMax (Builds (mkJob "a" "http://ci/job/a/" twoBuilds)) 2) /\
  1 <= sparkIndex (Failures (mkBuild 2 "http://ci/job/a/2/" 0 2 true))
                  (windowMax (Builds (mkJob "a" "http://ci/job/a/" twoBuilds)) 2) <= 7 /\
  exists spark,
    spark ∈ sparks /\
    renderBuild (windowMax (Builds (mkJob "a" "http://ci/job/a/" twoBuilds)) 2)
                (mkBuild 2 "http://ci/job/a/2/" 0 2 true)
      = Ret (anchor (Url (mkBuild 2 "http://ci/job/a/2/" 0 2 true))
                    (title_of (Failures (mkBuild 2 "http://ci/job/a/2/" 0 2 true))) spark).
Proof.
  apply (RenderHistory_index_in_alphabet (mkJob "a" "http://ci/job/a/" twoBuilds) 2
           (mkBuild 2 "http://ci/job/a/2/" 0 2 true)).
  - repeat constructor.
  - right. left.
  - reflexivity.
  - reflexivity.
Defined.


(** The bound on the counts is needed: a complete build with a count below
    [-1] takes the default branch with a negative ratio, and the index
    falls below 0. *)
Lemma RenderHistory_panics_below_sentinel :
  sparkIndex (-5) (windowMax (Builds belowSentinel) 2) = -29 /\
  RenderHistory belowSentinel 2 = Panic.
Proof. split; vm_compute; reflexivity. Qed.

(** So is the bound on [count]: at [len(job.Builds) - 2^63] or below,
    [start] wraps to a negative index and [job.Builds[start]] panics in the
    scan for [max], whatever the builds are. *)
Lemma RenderHistory_panics_on_wrap (job : Job) (count : Z) :
  - 2 ^ 63 <= count -> count <= Z.of_nat (length (Builds job)) - 2 ^ 63 ->
  Z.of_nat (length (Builds job)) < 2 ^ 63 ->
  RenderHistory job count = Panic.
Proof.
  intros Hlo Hhi Hlen. unfold RenderHistory.
  pose proof (start_wraps _ _ Hlo Hhi Hlen) as Hs.
  destruct (Z.ltb_spec (start (Builds job) count) 0); [reflexivity|lia].
Qed.

(** ** The limits read by main *)

(** After the clamp, [maxHistory] is at most [maxBuilds]. *)
Lemma limits_clamped config :
  snd (Part000.limits config) <= fst (Part000.limits config).
Proof.
  unfold Part000.limits.
  destruct (GetInt64 config "maxBuilds") as [maxBuilds ok].
  destruct (GetInt64 config "maxHistory") as [maxHistory ok']. simpl.
  destruct (Z.gtb_spec (if ok' then maxHistory else 10) (if ok then maxBuilds else 10)); lia.
Qed.

(** * Further properties of the code *)

(** ** The JSON accessors *)

(** X1: whatever a key holds, at most one of the five typed accessors finds
    it, and none finds a key that is absent. *)
Theorem accessors_at_most_one (o : JsonObject) (key : string) :
  (Nat.b2n (snd (GetString o key)) + Nat.b2n (snd (GetInt64 o key)) +
   Nat.b2n (snd (GetBool o key)) + Nat.b2n (bool_decide (is_Some (GetObject o key))) +
   Nat.b2n (bool_decide (is_Some (GetArray o key)))
   <= match o !! key with Some _ => 1 | None => 0 end)%nat.
Proof.
  unfold GetString, GetInt64, GetBool, GetObject, GetArray, AsJsonObject.
  destruct (o !! key) as [[|?|?|s|?|?|?]|]; simpl; try lia.
  destruct (Number_Int64 s); simpl; lia.
Qed.

(** ** Build stubs *)

(** X2: [ProcessBuildObject] reads only the keys [_class], [number] and
    [url] of a build object: setting any other key to any value, or
    removing it, changes neither whether the object is accepted nor the
    build that is returned. *)
Theorem ProcessBuildObject_other_keys (build : JsonObject) (key : string) (val : Json) :
  key <> "_class" -> key <> "number" -> key <> "url" ->
  ProcessBuildObject (JObject (<[key := val]> build)) = ProcessBuildObject (JObject build) /\
  ProcessBuildObject (JObject (delete key build)) = ProcessBuildObject (JObject build).
Proof.
  intros Hc Hn Hu. unfold ProcessBuildObject, GetString, GetInt64. simpl.
  rewrite !lookup_insert_ne, !lookup_delete_ne by congruence. split; reflexivity.
Qed.

Lemma ProcessBuildObject_other_keys_witness :
  ProcessBuildObject
    (JObject (<["result" := JString "FAILURE"]>
                {[ "_class" := JString "hudson.model.FreeStyleBuild";
                   "number" := JNumber "7";
                   "url" := JString "http://ci/job/a/7/" ]}))
  = ProcessBuildObject
      (JObject {[ "_class" := JString "hudson.model.FreeStyleBuild";
                  "number" := JNumber "7";
                  "url" := JString "http://ci/job/a/7/" ]}) /\
  ProcessBuildObject
    (JObject (delete "result"
                {[ "_class" := JString "hudson.model.FreeStyleBuild";
                   "number" := JNumber "7";
                   "url" := JString "http://ci/job/a/7/" ]}))
  = ProcessBuildObject
      (JObject {[ "_class" := JString "hudson.model.FreeStyleBuild";
                  "number" := JNumber "7";
                  "url" := JString "http://ci/job/a/7/" ]}).
Proof.
  apply (ProcessBuildObject_other_keys
           {[ "_class" := JString "hudson.model.FreeStyleBuild";
              "number" := JNumber "7";
              "url" := JString "http://ci/job/a/7/" ]}
           "result" (JString "FAILURE")); discriminate.
Defined.

Lemma collectBuilds_fold (buildObjects : list Json) (acc : list Build) :
  fold_left
    (fun builds b =>
       match ProcessBuildObject b with
       | Some build => builds ++ [build]
       | None => builds
       end)
    buildObjects acc
  = acc ++ omap ProcessBuildObject buildObjects.
Proof.
  revert acc. induction buildObjects as [|j l IH]; intros acc; simpl.
  - now rewrite app_nil_r.
  - rewrite IH. destruct (ProcessBuildObject j); [|reflexivity].
    now rewrite <- app_assoc.
Qed.

Lemma ProcessBuildObject_stub buildIf b :
  ProcessBuildObject buildIf = Some b -> isStub b.
Proof.
  unfold ProcessBuildObject.
  destruct (AsJsonObject buildIf) as [build|]; [|discriminate].
  destruct (GetString build "_class") as [class ok].
  destruct (negb ok || negb (String.eqb class "hudson.model.FreeStyleBuild"));
    [discriminate|].
  destruct (GetInt64 build "number") as [id ok']. destruct (negb ok'); [discriminate|].
  destruct (GetString build "url") as [url ok'']. destruct (negb ok''); [discriminate|].
  intros [= <-]. repeat split.
Qed.

Lemma collectBuilds_stubs buildObjects : Forall isStub (collectBuilds buildObjects).
Proof.
  unfold collectBuilds. rewrite collectBuilds_fold. simpl.
  apply Forall_forall. intros b Hb. apply list_elem_of_omap in Hb as (j & _ & Hj).
  now apply ProcessBuildObject_stub in Hj.
Qed.

Lemma omap_length_le {A B : Type} (f : A -> option B) (l : list A) :
  (length (omap f l) <= length l)%nat.
Proof.
  induction l as [|x l IH]; [simpl; lia|].
  change (omap f (x :: l))
    with (match f x with Some y => y :: omap f l | None => omap f l end).
  destruct (f x); simpl; lia.
Qed.

Lemma collectBuilds_length buildObjects :
  (length (collectBuilds buildObjects) <= length buildObjects)%nat.
Proof. unfold collectBuilds. rewrite collectBuilds_fold. simpl. apply omap_length_le. Qed.

(** X3: the loop that collects the builds keeps the accepted entries of the
    array in their order and drops the others, so it never returns more
    builds than the array has entries, and every build it returns is a
    stub. *)
Theorem collectBuilds_omap (buildObjects : list Json) :
  collectBuilds buildObjects = omap ProcessBuildObject buildObjects /\
  (length (collectBuilds buildObjects) <= length buildObjects)%nat /\
  Forall isStub (collectBuilds buildObjects).
Proof.
  split; [|split].
  - unfold collectBuilds. now rewrite collectBuilds_fold.
  - apply collectBuilds_length.
  - apply collectBuilds_stubs.
Qed.

(** ** BuildSorter *)

(** X4: for two indices inside the slice, [Swap] exchanges the two builds,
    leaves every other position and the length as they were, and so
    rearranges the slice without losing or adding a build. *)
Theorem Swap_exchanges (s : list Build) (i j : nat) :
  (i < length s)%nat -> (j < length s)%nat ->
  length (Swap s i j) = length s /\
  Swap s i j !! i = s !! j /\
  Swap s i j !! j = s !! i /\
  (forall k, k <> i -> k <> j -> Swap s i j !! k = s !! k) /\
  Swap s i j ≡ₚ s.
Proof.
  intros Hi Hj.
  destruct (lookup_lt_is_Some_2 s i Hi) as [x Hx].
  destruct (lookup_lt_is_Some_2 s j Hj) as [y Hy].
  assert (Swap s i j = <[i := y]> (<[j := x]> s)) as E by (simpl; now rewrite Hx, Hy).
  rewrite E.
  assert (forall k, <[i := y]> (<[j := x]> s) !! k
                    = if decide (k = i) then Some y
                      else if decide (k = j) then Some x else s !! k) as Hk.
  { intros k. destruct (decide (k = i)) as [->|Hki].
    - apply list_lookup_insert_eq. now rewrite length_insert.
    - rewrite list_lookup_insert_ne by congruence.
      destruct (decide (k = j)) as [->|Hkj].
      + now apply list_lookup_insert_eq.
      + now rewrite list_lookup_insert_ne by congruence. }
  split; [now rewrite !length_insert|]. split; [|split; [|split]].
  - rewrite Hk, decide_True by reflexivity. now rewrite Hy.
  - rewrite Hk. destruct (decide (j = i)) as [->|]; [congruence|].
    rewrite decide_True by reflexivity. now rewrite Hx.
  - intros k Hki Hkj. rewrite Hk. now rewrite !decide_False by assumption.
  - now apply Permutation_insert_swap.
Qed.

Lemma Swap_exchanges_witness :
  length (Swap [stub 1 "a"; stub 2 "b"; stub 3 "c"] 0 2) = 3%nat /\
  Swap [stub 1 "a"; stub 2 "b"; stub 3 "c"] 0 2 !! 0%nat = Some (stub 3 "c") /\
  Swap [stub 1 "a"; stub 2 "b"; stub 3 "c"] 0 2 !! 2%nat = Some (stub 1 "a") /\
  (forall k, k <> 0%nat -> k <> 2%nat ->
     Swap [stub 1 "a"; stub 2 "b"; stub 3 "c"] 0 2 !! k
     = [stub 1 "a"; stub 2 "b"; stub 3 "c"] !! k) /\
  Swap [stub 1 "a"; stub 2 "b"; stub 3 "c"] 0 2 ≡ₚ [stub 1 "a"; stub 2 "b"; stub 3 "c"].
Proof.
  apply (Swap_exchanges [stub 1 "a"; stub 2 "b"; stub 3 "c"] 0 2); simpl; lia.
Defined.

(** ** The walk over jobs and folders *)

Lemma jobListing_excluded http i (job : JsonObject) name :
  GetString job "name" = (name, true) ->
  excluded i name = true ->
  jobListing http i (JObject job) = None.
Proof.
  intros Hn He. unfold jobListing. simpl.
  destruct (GetString job "_class") as [class ok].
  destruct (negb ok || negb (String.eqb class "hudson.model.FreeStyleProject"));
    [reflexivity|].
  rewrite Hn. simpl. now rewrite He.
Qed.

(** X5: a job whose name matches one of the instance's exclude patterns is
    rejected by [ProcessJobObject] in both snapshots, whatever the transport
    answers and whatever [maxBuilds] is; in src/jitdash.go this happens
    without a panic. *)
Theorem ProcessJobObject_excluded http i (job : JsonObject) name maxBuilds :
  GetString job "name" = (name, true) ->
  excluded i name = true ->
  Part000.ProcessJobObject http i (JObject job) = None /\
  Jitdash.ProcessJobObject http i (JObject job) maxBuilds = Ret None.
Proof.
  intros Hn He. unfold Part000.ProcessJobObject, Jitdash.ProcessJobObject.
  now rewrite (jobListing_excluded http i job name Hn He).
Qed.

Lemma ProcessJobObject_excluded_witness :
  Part000.ProcessJobObject exampleHttp
    (mkInstance "ci" [] [fun name => String.eqb name "a"])
    jobObject = None /\
  Jitdash.ProcessJobObject exampleHttp
    (mkInstance "ci" [] [fun name => String.eqb name "a"])
    jobObject 10 = Ret None.
Proof.
  apply (ProcessJobObject_excluded exampleHttp
           (mkInstance "ci" [] [fun name => String.eqb name "a"])
           {[ "_class" := JString "hudson.model.FreeStyleProject";
              "name" := JString "a";
              "url" := JString "http://ci/job/a/" ]} "a" 10); reflexivity.
Defined.

(** What [jobListing] returns: the name and the URL are those of the job
    object, the name is not excluded, and the job's own listing was
    decoded. *)
Lemma jobListing_accepts http i jobIf name url builds :
  jobListing http i jobIf = Some (name, url, builds) ->
  excluded i name = false /\
  exists job details buildObjects,
    jobIf = JObject job /\
    GetString job "name" = (name, true) /\
    GetString job "url" = (url, true) /\
    http (url +:+ "api/json") = Decoded details /\
    GetArray details "builds" = Some buildObjects /\
    builds = sort_Sort (collectBuilds buildObjects).
Proof.
  unfold jobListing. intros H.
  destruct jobIf as [|?|?|?|?|?|job]; simpl in H; try discriminate.
  destruct (GetString job "_class") as [class ok].
  destruct (negb ok || negb (String.eqb class "hudson.model.FreeStyleProject"));
    [discriminate|].
  destruct (GetString job "name") as [name' ok'] eqn:En.
  destruct ok'; simpl in H; [|discriminate].
  destruct (excluded i name') eqn:Ee; [discriminate|].
  destruct (GetString job "url") as [url' ok''] eqn:Eu.
  destruct ok''; simpl in H; [|discriminate].
  destruct (http (url' +:+ "api/json")) as [| |details] eqn:Eh; try discriminate.
  destruct (GetArray details "builds") as [buildObjects|] eqn:Ea; [|discriminate].
  injection H as <- <- <-. split; [assumption|].
  now exists job, details, buildObjects.
Qed.

Lemma Part000_folders_fold http i folders jobs :
  fold_left (Part000.fetchFolder http i) folders jobs
  = jobs ++ concat (Part000_folderJobs http i <$> folders).
Proof.
  revert jobs. induction folders as [|u l IH]; intros jobs; simpl.
  - now rewrite app_nil_r.
  - rewrite IH, Part000_fetchFolder_app. now rewrite <- app_assoc.
Qed.

Lemma Part000_FetchJobs_concat http i :
  Part000.FetchJobs http i = concat (Part000_folderJobs http i <$> Folders i).
Proof. unfold Part000.FetchJobs. now rewrite Part000_folders_fold. Qed.

(** X6: in src/unnamed/part_000 the jobs of a list of folders are the jobs
    of its first part followed by the jobs of its second part: folders are
    walked independently and in order. *)
Theorem Part000_FetchJobs_app http name exclude folders1 folders2 :
  Part000.FetchJobs http (mkInstance name (folders1 ++ folders2) exclude)
  = Part000.FetchJobs http (mkInstance name folders1 exclude)
    ++ Part000.FetchJobs http (mkInstance name folders2 exclude).
Proof.
  rewrite !Part000_FetchJobs_concat. simpl.
  rewrite fmap_app, concat_app. reflexivity.
Qed.

(** X7: in src/unnamed/part_000 a folder that cannot be fetched, cannot be
    decoded or has no array [jobs] adds no job and does not disturb the
    other folders. *)
Theorem Part000_FetchJobs_isolates http name exclude pre folderUrl post :
  (http folderUrl = NetError \/ http folderUrl = DecodeError \/
   exists folder, http folderUrl = Decoded folder /\ GetArray folder "jobs" = None) ->
  Part000.FetchJobs http (mkInstance name (pre ++ folderUrl :: post) exclude)
  = Part000.FetchJobs http (mkInstance name (pre ++ post) exclude).
Proof.
  intros H. rewrite !Part000_FetchJobs_concat. simpl.
  rewrite !fmap_app, fmap_cons, !concat_app, concat_cons.
  assert (Part000_folderJobs http (mkInstance name (pre ++ folderUrl :: post) exclude) folderUrl
          = []) as ->.
  { unfold Part000_folderJobs. destruct H as [->|[->|(folder & -> & ->)]]; reflexivity. }
  reflexivity.
Qed.

Lemma Part000_FetchJobs_isolates_witness :
  Part000.FetchJobs exampleHttp
    (mkInstance "ci" (["http://ci/view/api/json"] ++ "http://down/api/json" :: []) [])
  = Part000.FetchJobs exampleHttp (mkInstance "ci" (["http://ci/view/api/json"] ++ []) []).
Proof.
  apply (Part000_FetchJobs_isolates exampleHttp "ci" [] ["http://ci/view/api/json"]
           "http://down/api/json" []).
  left. reflexivity.
Defined.

Lemma elem_of_concat {A : Type} (x : A) (ls : list (list A)) :
  x ∈ concat ls -> exists l, x ∈ l /\ l ∈ ls.
Proof.
  induction ls as [|l ls IH]; simpl; intros H; [now inversion H|].
  apply elem_of_app in H as [H|H].
  - exists l. split; [assumption|left].
  - destruct (IH H) as (l' & H1 & H2). exists l'. split; [assumption|now right].
Qed.

Lemma Part000_FetchJobs_elem http i job :
  job ∈ Part000.FetchJobs http i ->
  exists jobIf, Part000.ProcessJobObject http i jobIf = Some job.
Proof.
  rewrite Part000_FetchJobs_concat. intros H.
  apply elem_of_concat in H as (l & Hjob & Hl).
  apply list_elem_of_fmap in Hl as (u & -> & _).
  unfold Part000_folderJobs in Hjob.
  destruct (http u) as [| |folder]; try (now inversion Hjob).
  destruct (GetArray folder "jobs") as [jobObjects|]; [|now inversion Hjob].
  apply list_elem_of_omap in Hjob as (jobIf & _ & Hj). eauto.
Qed.

(** X8: in src/unnamed/part_000 every job [FetchJobs] returns has a name
    that no exclude pattern matches, builds in non-decreasing order of
    [Id], and only stubs as builds: no detail page has been read yet. *)
Theorem Part000_FetchJobs_invariant http i job :
  job ∈ Part000.FetchJobs http i ->
  excluded i (JobName job) = false /\
  StronglySorted le_Id (Builds job) /\
  Forall isStub (Builds job).
Proof.
  intros H. apply Part000_FetchJobs_elem in H as (jobIf & H).
  unfold Part000.ProcessJobObject in H.
  destruct (jobListing http i jobIf) as [[[name url] builds]|] eqn:E; [|discriminate].
  injection H as <-. simpl.
  destruct (jobListing_accepts _ _ _ _ _ _ E)
    as (Hex & job' & details & buildObjects & _ & _ & _ & _ & _ & ->).
  destruct (sort_Sort_spec (collectBuilds buildObjects)) as [HS HP].
  split; [assumption|]. split; [assumption|].
  rewrite HP. apply collectBuilds_stubs.
Qed.

Lemma Part000_FetchJobs_invariant_witness :
  excluded exampleInstance (JobName sortedJob) = false /\
  StronglySorted le_Id (Builds sortedJob) /\
  Forall isStub (Builds sortedJob).
Proof.
  apply (Part000_FetchJobs_invariant exampleHttp exampleInstance sortedJob).
  vm_compute. left.
Defined.

(** ** FetchJobs in src/jitdash.go, as a whole *)

Lemma truncate_ok builds maxBuilds :
  0 <= maxBuilds -> Z.of_nat (length builds) < 2 ^ 63 ->
  truncate builds maxBuilds
  = Ret (drop (Z.to_nat (Z.of_nat (length builds) - maxBuilds)) builds).
Proof.
  intros Hmb Hlen. unfold truncate, slice_from.
  destruct (Z.gtb_spec (Z.of_nat (length builds)) maxBuilds) as [Hgt|Hle].
  - rewrite wrap64_small by lia.
    destruct (Z.leb_spec 0 (Z.of_nat (length builds) - maxBuilds)); [|lia].
    destruct (Z.leb_spec (Z.of_nat (length builds) - maxBuilds) (Z.of_nat (length builds)));
      [|lia].
    reflexivity.
  - replace (Z.to_nat (Z.of_nat (length builds) - maxBuilds)) with 0%nat by lia.
    reflexivity.
Qed.

Lemma forEach_inv {A B : Type} (P : B -> Prop) (body : B -> A -> result B) l acc :
  (forall acc x, P acc -> exists acc', body acc x = Ret acc' /\ P acc') ->
  P acc -> exists r, forEach body l acc = Ret r /\ P r.
Proof.
  intros Hbody. revert acc. induction l as [|x l IH]; intros acc Hacc; simpl.
  - eauto.
  - destruct (Hbody acc x Hacc) as (acc' & -> & Hacc'). simpl. now apply IH.
Qed.

Lemma Jitdash_ProcessJobObject_ok http i jobIf maxBuilds :
  0 <= maxBuilds ->
  (forall url details a,
     http url = Decoded details -> GetArray details "builds" = Some a ->
     Z.of_nat (length a) < 2 ^ 63) ->
  exists r, Jitdash.ProcessJobObject http i jobIf maxBuilds = Ret r /\
            forall job, r = Some job -> Jitdash_job_ok i maxBuilds job.
Proof.
  intros Hmb Hbound.
  destruct (Jitdash.ProcessJobObject http i jobIf maxBuilds) as [|r] eqn:E.
  - exfalso. unfold Jitdash.ProcessJobObject in E.
    destruct (jobListing http i jobIf) as [[[name url] builds]|] eqn:EL; [|discriminate].
    destruct (jobListing_accepts _ _ _ _ _ _ EL)
      as (_ & job' & details & a & _ & _ & _ & Hh & Ha & ->).
    destruct (sort_Sort_spec (collectBuilds a)) as [_ HP].
    rewrite truncate_ok in E; [discriminate|assumption|].
    rewrite HP. pose proof (collectBuilds_length a) as Hl.
    specialize (Hbound _ _ _ Hh Ha). lia.
  - exists r. split; [reflexivity|]. intros job ->.
    pose proof (Jitdash_ProcessJobObject_sorted _ _ _ _ _ E) as HS.
    unfold Jitdash.ProcessJobObject in E.
    destruct (jobListing http i jobIf) as [[[name url] builds]|] eqn:EL; [|discriminate].
    destruct (jobListing_accepts _ _ _ _ _ _ EL)
      as (Hex & job' & details & a & _ & _ & _ & Hh & Ha & ->).
    destruct (sort_Sort_spec (collectBuilds a)) as [_ HP].
    rewrite truncate_ok in E; [|assumption|].
    2:{ rewrite HP. pose proof (collectBuilds_length a) as Hl.
        specialize (Hbound _ _ _ Hh Ha). lia. }
    simpl in E. injection E as <-. repeat split; simpl; try assumption.
    unfold fetchAll. rewrite length_fmap, length_drop. lia.
Qed.

(** X9: in src/jitdash.go, with [0 <= maxBuilds] and build arrays of fewer
    than [2^63] entries, [FetchJobs] never panics, and every job it returns
    has a name that no exclude pattern matches, at most [maxBuilds] builds,
    and its builds in non-decreasing order of [Id]. *)
Theorem Jitdash_FetchJobs_safe http i maxBuilds :
  0 <= maxBuilds ->
  (forall url details a,
     http url = Decoded details -> GetArray details "builds" = Some a ->
     Z.of_nat (length a) < 2 ^ 63) ->
  exists jobs,
    Jitdash.FetchJobs http i maxBuilds = Ret jobs /\
    Forall (fun job =>
              excluded i (JobName job) = false /\
              Z.of_nat (length (Builds job)) <= maxBuilds /\
              StronglySorted le_Id (Builds job)) jobs.
Proof.
  intros Hmb Hbound. unfold Jitdash.FetchJobs.
  apply (forEach_inv (Forall (Jitdash_job_ok i maxBuilds))); [|constructor].
  intros jobs folderUrl Hjobs. unfold Jitdash.fetchFolder.
  destruct (http folderUrl) as [| |folder]; eauto.
  destruct (GetString folder "_class") as [class ok].
  destruct (negb ok || negb (String.eqb class "com.cloudbees.hudson.plugins.folder.Folder"));
    eauto.
  destruct (GetArray folder "jobs") as [jobObjects|]; eauto.
  apply (forEach_inv (Forall (Jitdash_job_ok i maxBuilds))); [|assumption].
  intros acc j Hacc.
  destruct (Jitdash_ProcessJobObject_ok http i j maxBuilds Hmb Hbound) as (r & -> & Hr).
  simpl. destruct r as [job|]; eexists; (split; [reflexivity|]); [|assumption].
  apply Forall_app. split; [assumption|]. constructor; [now apply Hr|constructor].
Qed.

Lemma Jitdash_FetchJobs_safe_witness :
  exists jobs,
    Jitdash.FetchJobs taggedHttp taggedInstance 2 = Ret jobs /\
    Forall (fun job =>
              excluded taggedInstance (JobName job) = false /\
              Z.of_nat (length (Builds job)) <= 2 /\
              StronglySorted le_Id (Builds job)) jobs.
Proof.
  apply (Jitdash_FetchJobs_safe taggedHttp taggedInstance 2); [lia|].
  intros url details a Hh Ha. unfold taggedHttp in Hh.
  destruct (String.eqb url "http://ci/job/a/api/json").
  - injection Hh as <-. vm_compute in Ha. injection Ha as <-. reflexivity.
  - destruct (String.eqb url "http://ci/folder/api/json"); [|discriminate].
    injection Hh as <-. vm_compute in Ha. discriminate.
Defined.

(** ** FetchDetails *)

Lemma FetchDetails_Url http b : Url (fst (FetchDetails http b)) = Url b.
Proof.
  unfold FetchDetails.
  destruct (http (Url b +:+ "api/json")) as [| |details]; try reflexivity.
  destruct (GetString details "result") as [result ok]. destruct (negb ok); [reflexivity|].
  destruct (GetInt64 details "timestamp") as [ms ok']. destruct (negb ok'); [reflexivity|].
  destruct (GetBool details "building") as [building ok'']. reflexivity.
Qed.

(** X10: [FetchDetails] never changes the [Id] or the [Url] of a build,
    whether it fails or succeeds. *)
Theorem FetchDetails_keeps_identity http b :
  Id (fst (FetchDetails http b)) = Id b /\ Url (fst (FetchDetails http b)) = Url b.
Proof. split; [apply FetchDetails_Id|apply FetchDetails_Url]. Qed.

(** X11: a second [FetchDetails] against the same transport changes
    nothing: it returns the same error and leaves the build as the first
    call left it. *)
Theorem FetchDetails_idempotent http b :
  FetchDetails http (fst (FetchDetails http b)) = FetchDetails http b.
Proof.
  unfold FetchDetails at 2.
  destruct (http (Url b +:+ "api/json")) as [| |details] eqn:Eh.
  - simpl. unfold FetchDetails. now rewrite Eh.
  - simpl. unfold FetchDetails. now rewrite Eh.
  - destruct (GetString details "result") as [result ok] eqn:Er. destruct ok; simpl.
    + destruct (GetInt64 details "timestamp") as [ms ok'] eqn:Et. destruct ok'; simpl.
      * destruct (GetBool details "building") as [building ok''] eqn:Eb. simpl.
        unfold FetchDetails. simpl. rewrite Eh, Er, Et, Eb. reflexivity.
      * unfold FetchDetails. rewrite Eh, Er, Et. reflexivity.
    + unfold FetchDetails. rewrite Eh, Er. reflexivity.
Qed.

(** X12: after a successful [FetchDetails] of a detail page whose result
    is ["FAILURE"], [Failures] is not 0, so the build cannot be shown as
    passed. *)
Theorem FetchDetails_failure_not_passed http b :
  snd (FetchDetails http b) = None ->
  (exists details, http (Url b +:+ "api/json") = Decoded details /\
                   fst (GetString details "result") = "FAILURE") ->
  Failures (fst (FetchDetails http b)) <> 0 /\
  title_of (Failures (fst (FetchDetails http b))) <> "Passed".
Proof.
  intros Hok (details & Hh & Hr).
  assert (Failures (fst (FetchDetails http b)) <> 0) as Hne.
  { revert Hok. unfold FetchDetails. rewrite Hh.
    destruct (GetString details "result") as [result ok]. simpl in Hr. subst result.
    destruct ok; simpl; [|discriminate].
    destruct (GetInt64 details "timestamp") as [ms ok']. destruct ok'; simpl; [|discriminate].
    destruct (GetBool details "building") as [building ok'']. simpl. intros _.
    destruct (Z.eqb_spec (scanActions details) 0); simpl; lia. }
  split; [assumption|]. unfold title_of.
  destruct (Z.eqb_spec (Failures (fst (FetchDetails http b))) 0); [contradiction|].
  destruct (Failures (fst (FetchDetails http b)) =? -1); [discriminate|].
  unfold decimal. intros E.
  destruct (Z.to_int (Failures (fst (FetchDetails http b)))) as [d|d]; simpl in E.
  - destruct d; simpl in E; try discriminate.
  - discriminate.
Qed.

Lemma FetchDetails_failure_not_passed_witness :
  Failures (fst (FetchDetails exampleHttp (stub 2 "http://ci/job/a/2/"))) <> 0 /\
  title_of (Failures (fst (FetchDetails exampleHttp (stub 2 "http://ci/job/a/2/"))))
    <> "Passed".
Proof.
  apply (FetchDetails_failure_not_passed exampleHttp (stub 2 "http://ci/job/a/2/")).
  - reflexivity.
  - exists failedDetails. split; reflexivity.
Defined.

(** X13: a detail page without a boolean [building] and with an empty
    [result] leaves the build incomplete, and [RenderHistory] shows it as
    building whatever failure count the page carried and whatever the
    window's maximum is. *)
Theorem FetchDetails_running_renders_building http b details ms max :
  http (Url b +:+ "api/json") = Decoded details ->
  GetString details "result" = ("", true) ->
  GetInt64 details "timestamp" = (ms, true) ->
  snd (GetBool details "building") = false ->
  Complete (fst (FetchDetails http b)) = false /\
  renderBuild max (fst (FetchDetails http b)) = Ret (anchor (Url b) "building" "B").
Proof.
  intros Hh Hr Ht Hb.
  assert (Complete (fst (FetchDetails http b)) = false) as Hc.
  { unfold FetchDetails. rewrite Hh, Hr, Ht. simpl.
    destruct (GetBool details "building") as [building ok]. simpl in Hb. subst ok.
    reflexivity. }
  split; [assumption|]. unfold renderBuild. rewrite Hc.
  now rewrite FetchDetails_Url.
Qed.

Lemma FetchDetails_running_renders_building_witness :
  Complete (fst (FetchDetails pendingHttp (stub 4 "http://ci/job/a/4/"))) = false /\
  renderBuild 9 (fst (FetchDetails pendingHttp (stub 4 "http://ci/job/a/4/")))
    = Ret (anchor (Url (stub 4 "http://ci/job/a/4/")) "building" "B").
Proof.
  apply (FetchDetails_running_renders_building pendingHttp (stub 4 "http://ci/job/a/4/")
           pendingDetails 1000 9); reflexivity.
Defined.

(** ** Truncation, again *)

(** X14: truncating twice with the same non-negative [maxBuilds] is
    truncating once. *)
Theorem truncate_idempotent builds maxBuilds retained :
  0 <= maxBuilds -> Z.of_nat (length builds) < 2 ^ 63 ->
  truncate builds maxBuilds = Ret retained ->
  truncate retained maxBuilds = Ret retained.
Proof.
  intros Hmb Hlen H. rewrite truncate_ok in H by assumption. injection H as <-.
  rewrite truncate_ok; [|assumption|rewrite length_drop; lia].
  rewrite length_drop. f_equal.
  replace (Z.to_nat (Z.of_nat (length builds
             - Z.to_nat (Z.of_nat (length builds) - maxBuilds)) - maxBuilds)) with 0%nat by lia.
  reflexivity.
Qed.

Lemma truncate_idempotent_witness :
  truncate [stub 2 "b"; stub 3 "c"] 2 = Ret [stub 2 "b"; stub 3 "c"].
Proof.
  apply (truncate_idempotent [stub 1 "a"; stub 2 "b"; stub 3 "c"] 2); [lia|reflexivity|].
  reflexivity.
Defined.

(** X15: with [maxBuilds] at least 1 the truncation keeps the last build of
    the list, which after the sort is one with the highest [Id]. *)
Theorem truncate_keeps_last builds maxBuilds retained :
  1 <= maxBuilds -> Z.of_nat (length builds) < 2 ^ 63 ->
  truncate builds maxBuilds = Ret retained ->
  last retained = last builds.
Proof.
  intros Hmb Hlen H. rewrite truncate_ok in H by lia. injection H as <-.
  destruct builds as [|b builds _] using rev_ind; [now rewrite drop_nil|].
  rewrite length_app in *. simpl in *.
  rewrite drop_app_le by (rewrite ?length_app; lia).
  now rewrite !last_snoc.
Qed.

Lemma truncate_keeps_last_witness :
  last [stub 2 "b"; stub 3 "c"] = last [stub 1 "a"; stub 2 "b"; stub 3 "c"].
Proof.
  apply (truncate_keeps_last [stub 1 "a"; stub 2 "b"; stub 3 "c"] 2); [lia|reflexivity|].
  reflexivity.
Defined.

(** X16: with [maxBuilds = 0] the truncation empties every build list, so
    no detail page is fetched and every history is only padding. *)
Theorem truncate_zero builds :
  Z.of_nat (length builds) < 2 ^ 63 -> truncate builds 0 = Ret [].
Proof.
  intros Hlen. rewrite truncate_ok by lia.
  rewrite drop_ge by lia. reflexivity.
Qed.

Lemma truncate_zero_witness : truncate [stub 1 "a"; stub 2 "b"] 0 = Ret [].
Proof. apply (truncate_zero [stub 1 "a"; stub 2 "b"]). reflexivity. Defined.

(** X17: what [main] of src/unnamed/part_000 does to a job between
    [FetchJobs] and the report, for [0 <= maxBuilds]: no panic, the name and
    the URL of the job are kept, and the builds are the last
    [min n maxBuilds] builds of the list with the same [Id]s and [Url]s in
    the same order. *)
Theorem Part000_retain_spec http maxBuilds j :
  0 <= maxBuilds -> Z.of_nat (length (Builds j)) < 2 ^ 63 ->
  exists j',
    Part000.retain http maxBuilds j = Ret j' /\
    JobName j' = JobName j /\ JobUrl j' = JobUrl j /\
    Z.of_nat (length (Builds j')) = Z.min (Z.of_nat (length (Builds j))) maxBuilds /\
    Id <$> Builds j'
      = drop (Z.to_nat (Z.of_nat (length (Builds j)) - maxBuilds)) (Id <$> Builds j) /\
    Url <$> Builds j'
      = drop (Z.to_nat (Z.of_nat (length (Builds j)) - maxBuilds)) (Url <$> Builds j).
Proof.
  intros Hmb Hlen. unfold Part000.retain. rewrite truncate_ok by assumption. simpl.
  eexists. split; [reflexivity|]. simpl. unfold fetchAll.
  split; [reflexivity|]. split; [reflexivity|]. split; [|split].
  - rewrite length_fmap, length_drop. lia.
  - rewrite <- list_fmap_compose, <- fmap_drop. apply list_fmap_ext.
    intros k b _. simpl. apply FetchDetails_Id.
  - rewrite <- list_fmap_compose, <- fmap_drop. apply list_fmap_ext.
    intros k b _. simpl. apply FetchDetails_Url.
Qed.

Lemma Part000_retain_spec_witness :
  exists j',
    Part000.retain exampleHttp 2 sortedJob = Ret j' /\
    JobName j' = JobName sortedJob /\ JobUrl j' = JobUrl sortedJob /\
    Z.of_nat (length (Builds j')) = Z.min (Z.of_nat (length (Builds sortedJob))) 2 /\
    Id <$> Builds j'
      = drop (Z.to_nat (Z.of_nat (length (Builds sortedJob)) - 2)) (Id <$> Builds sortedJob) /\
    Url <$> Builds j'
      = drop (Z.to_nat (Z.of_nat (length (Builds sortedJob)) - 2)) (Url <$> Builds sortedJob).
Proof. apply (Part000_retain_spec exampleHttp 2 sortedJob); [lia|reflexivity]. Defined.

(** ** RenderHistory as a whole *)

Lemma renderAll_length max builds cells :
  renderAll max builds = Ret cells -> length cells = length builds.
Proof.
  revert cells. induction builds as [|b l IH]; intros cells; simpl.
  - now intros [= <-].
  - destruct (renderBuild max b) as [|s]; simpl; [discriminate|].
    destruct (renderAll max l) as [|ss]; simpl; [discriminate|].
    intros [= <-]. simpl. f_equal. now apply IH.
Qed.

Lemma renderAll_cells max builds cells :
  renderAll max builds = Ret cells ->
  Forall2 (fun b cell => renderBuild max b = Ret cell) builds cells.
Proof.
  revert cells. induction builds as [|b l IH]; intros cells; simpl.
  - intros [= <-]. constructor.
  - destruct (renderBuild max b) as [|s] eqn:Eb; simpl; [discriminate|].
    destruct (renderAll max l) as [|ss]; simpl; [discriminate|].
    intros [= <-]. constructor; [assumption|now apply IH].
Qed.

Lemma window_length builds count :
  0 <= count -> Z.of_nat (length builds) < 2 ^ 63 ->
  Z.of_nat (length (window builds count)) = Z.min count (Z.of_nat (length builds)).
Proof.
  intros Hc Hlen. rewrite window_drop by lia. rewrite length_drop. lia.
Qed.

(** X18: when [RenderHistory] returns for a [count] that is not negative,
    its output is the padding of lowest glyphs followed by the cells of the
    last [count] builds, in their order, each cell being what the third
    loop prints for its build under the window's [max]; padding and cells
    together make exactly [count] slots. *)
Theorem RenderHistory_slots job count s :
  0 <= count -> Z.of_nat (length (Builds job)) < 2 ^ 63 ->
  RenderHistory job count = Ret s ->
  exists cells,
    s = String.concat ""
          (replicate (Z.to_nat (count - Z.of_nat (length (Builds job)))) "▁" ++ cells) /\
    window (Builds job) count
      = drop (Z.to_nat (Z.of_nat (length (Builds job)) - count)) (Builds job) /\
    Forall2 (fun b cell => renderBuild (windowMax (Builds job) count) b = Ret cell)
            (window (Builds job) count) cells /\
    Z.of_nat (Z.to_nat (count - Z.of_nat (length (Builds job))) + length cells) = count.
Proof.
  intros Hc Hlen. unfold RenderHistory.
  destruct (start (Builds job) count <? 0); [discriminate|].
  destruct (renderAll (windowMax (Builds job) count) (window (Builds job) count))
    as [|cells] eqn:E; simpl; [discriminate|].
  intros [= <-]. exists cells. split; [reflexivity|].
  split; [apply window_drop; lia|].
  split; [now apply renderAll_cells|].
  apply renderAll_length in E.
  rewrite E. pose proof (window_length (Builds job) count Hc Hlen). lia.
Qed.

Lemma RenderHistory_slots_witness :
  exists cells,
    "▁<a href=" +:+ quote +:+ "u" +:+ quote +:+ " title=" +:+ quote +:+ "Passed: u"
      +:+ quote +:+ ">▁</a>"
    = String.concat ""
        (replicate (Z.to_nat (2 - Z.of_nat (length (Builds (mkJob "a" "j" [mkBuild 1 "u" 0 0 true])))))
           "▁" ++ cells) /\
    window (Builds (mkJob "a" "j" [mkBuild 1 "u" 0 0 true])) 2
      = drop (Z.to_nat (Z.of_nat (length (Builds (mkJob "a" "j" [mkBuild 1 "u" 0 0 true]))) - 2))
             (Builds (mkJob "a" "j" [mkBuild 1 "u" 0 0 true])) /\
    Forall2 (fun b cell =>
               renderBuild (windowMax (Builds (mkJob "a" "j" [mkBuild 1 "u" 0 0 true])) 2) b
               = Ret cell)
            (window (Builds (mkJob "a" "j" [mkBuild 1 "u" 0 0 true])) 2) cells /\
    Z.of_nat (Z.to_nat (2 - Z.of_nat (length (Builds (mkJob "a" "j" [mkBuild 1 "u" 0 0 true]))))
              + length cells) = 2.
Proof.
  apply (RenderHistory_slots (mkJob "a" "j" [mkBuild 1 "u" 0 0 true]) 2);
    [lia|reflexivity|].
  vm_compute. reflexivity.
Defined.



(** X20: for a [count] that is zero or negative, [RenderHistory] gives the
    empty string as long as [len(job.Builds) - count] fits an [int], that
    is for [count] above [len(job.Builds) - 2^63]; at that value and below,
    [start] wraps to a negative index and the call panics. *)
Theorem RenderHistory_nonpositive_count job count :
  - 2 ^ 63 <= count -> count <= 0 -> Z.of_nat (length (Builds job)) < 2 ^ 63 ->
  RenderHistory job count
  = if count <=? Z.of_nat (length (Builds job)) - 2 ^ 63 then Panic else Ret "".
Proof.
  intros Hlo Hc Hlen.
  destruct (Z.leb_spec count (Z.of_nat (length (Builds job)) - 2 ^ 63)) as [Hw|Hw].
  - now apply RenderHistory_panics_on_wrap.
  - unfold RenderHistory, windowMax.
    rewrite start_spec, window_drop by lia.
    destruct (Z.ltb_spec (Z.of_nat (length (Builds job))
                          - Z.min count (Z.of_nat (length (Builds job)))) 0); [lia|].
    rewrite drop_ge by lia. unfold padding. simpl.
    replace (Z.to_nat (count - Z.of_nat (length (Builds job)))) with 0%nat by lia.
    reflexivity.
Qed.

Lemma RenderHistory_nonpositive_count_witness :
  RenderHistory belowSentinel (- 2 ^ 63 + 2)
  = (if - 2 ^ 63 + 2 <=? Z.of_nat (length (Builds belowSentinel)) - 2 ^ 63
     then Panic else Ret "") /\
  RenderHistory belowSentinel (- 2 ^ 63 + 2) = Panic.
Proof.
  split; [|vm_compute; reflexivity].
  apply (RenderHistory_nonpositive_count belowSentinel (- 2 ^ 63 + 2));
    [vm_compute; discriminate|vm_compute; discriminate|reflexivity].
Defined.

(** X21: [RenderHistory] depends only on the last [count] builds: builds in
    front of the window, fewer than [2^63] of them as in any slice, change
    neither the glyphs nor the scale. *)
Theorem RenderHistory_window_only name url earlier shown count :
  Z.of_nat (length shown) = count ->
  Z.of_nat (length earlier) < 2 ^ 63 ->
  RenderHistory (mkJob name url (earlier ++ shown)) count
  = RenderHistory (mkJob name url shown) count.
Proof.
  intros Hlen Hearlier.
  assert (window (earlier ++ shown) count = shown) as Hw1.
  { rewrite window_drop by (rewrite length_app; lia). rewrite length_app.
    replace (Z.to_nat (Z.of_nat (length earlier + length shown) - count))
      with (length earlier) by lia.
    now rewrite drop_app_length. }
  assert (window shown count = shown) as Hw2.
  { rewrite window_drop by lia.
    replace (Z.to_nat (Z.of_nat (length shown) - count)) with 0%nat by lia.
    reflexivity. }
  unfold RenderHistory, windowMax. simpl. rewrite Hw1, Hw2.
  rewrite !start_spec by (rewrite ?length_app; lia).
  rewrite length_app.
  destruct (Z.ltb_spec (Z.of_nat (length earlier + length shown)
                        - Z.min count (Z.of_nat (length earlier + length shown))) 0); [lia|].
  destruct (Z.ltb_spec (Z.of_nat (length shown)
                        - Z.min count (Z.of_nat (length shown))) 0); [lia|].
  unfold padding. simpl.
  replace (Z.to_nat (count - Z.of_nat (length earlier + length shown))) with 0%nat by lia.
  replace (Z.to_nat (count - Z.of_nat (length shown))) with 0%nat by lia.
  reflexivity.
Qed.

Lemma RenderHistory_window_only_witness :
  RenderHistory (mkJob "a" "j" ([mkBuild 1 "u" 0 9 true] ++ twoBuilds)) 2
  = RenderHistory (mkJob "a" "j" twoBuilds) 2.
Proof.
  apply (RenderHistory_window_only "a" "j" [mkBuild 1 "u" 0 9 true] twoBuilds 2);
    reflexivity.
Defined.

(** X22: a positive count that equals the maximum of its window selects the
    highest glyph, index 7: the ratio is exactly 1 in float64. *)
Theorem glyphIndex_of_max f :
  1 <= f -> f < 2 ^ 63 -> glyphIndex f f = 7.
Proof.
  intros H1 H2.
  assert (glyphIndex f f = sparkIndex f f) as ->.
  { unfold glyphIndex. destruct (Z.eqb_spec f 0); [lia|].
    destruct (Z.eqb_spec f (-1)); [lia|reflexivity]. }
  destruct (of_int_spec f ltac:(lia)) as [Px _].
  destruct (fdiv_spec _ _ Px Px) as [Pp Np].
  pose proof (PosNormal_pos _ _ _ Px) as Hx.
  assert (B2R (fdiv (float64_of_int64 f) (float64_of_int64 f)) = 1%R) as Hp.
  { assert (B2R (float64_of_int64 f) / B2R (float64_of_int64 f) = 1)%R as E1
      by (field; lra).
    rewrite E1 in Np. apply (nearest_exact _ _ Np Repr_one). }
  destruct (fmul_spec _ _ Pp six_spec) as [Pt Nt].
  assert (B2R (scaled f f) = 6%R) as Ht.
  { unfold scaled. rewrite Hp, B2R_six in Nt.
    replace (1 * 6)%R with 6%R in Nt by ring. apply (nearest_exact _ _ Nt Repr_six). }
  destruct (int64_of_float64_floor _ _ _ Pt) as (Hnn & Hlo & Hhi).
  { fold (scaled f f). rewrite Ht. change (2 ^ 63) with 9223372036854775808. lra. }
  fold (scaled f f) in Hnn, Hlo, Hhi. rewrite Ht in Hlo, Hhi.
  assert (IZR (int64_of_float64 (scaled f f)) <= IZR 6)%R as Hle by lra.
  assert (IZR 6 < IZR (int64_of_float64 (scaled f f) + 1))%R as Hlt
    by (rewrite plus_IZR; lra).
  apply le_IZR in Hle. apply lt_IZR in Hlt.
  rewrite sparkIndex_scaled, wrap64_small; lia.
Qed.

Lemma glyphIndex_of_max_witness : glyphIndex 3 3 = 7.
Proof. apply (glyphIndex_of_max 3); [lia|reflexivity]. Defined.

Lemma decimal_not_empty n : decimal n <> "".
Proof.
  unfold decimal. destruct (Z.to_int n) as [d|d]; simpl; [|discriminate].
  destruct d; discriminate.
Qed.

Lemma decimal_head n c s :
  decimal n = String c s -> c <> "P"%char /\ c <> "F"%char.
Proof.
  unfold decimal. destruct (Z.to_int n) as [d|d]; simpl.
  - destruct d; simpl; intros [= <- _]; split; discriminate.
  - intros [= <- _]; split; discriminate.
Qed.

(** X23: the tooltip says ["Passed"] only for a count of 0 and ["Failed"]
    only for the sentinel -1, so a build whose count selects the same glyph
    as the sentinel still reads differently. *)
Theorem title_of_distinguishes f :
  (title_of f = "Passed" <-> f = 0) /\ (title_of f = "Failed" <-> f = -1).
Proof.
  unfold title_of.
  destruct (Z.eqb_spec f 0) as [->|H0].
  { split; split; try reflexivity; try discriminate; lia. }
  destruct (Z.eqb_spec f (-1)) as [->|H1].
  { split; split; try reflexivity; try discriminate; lia. }
  destruct (decimal f) as [|c s] eqn:E; [now apply decimal_not_empty in E|].
  apply decimal_head in E as [HP HF]. simpl.
  split; split; try lia; intros [= Hc _]; congruence.
Qed.

(** ** From the detail pages to the history *)









(** ** The configuration *)

(** X25: for every configuration [main] of src/unnamed/part_000 ends with
    [maxHistory <= maxBuilds]: [maxBuilds] is the configured integer or 10,
    and [maxHistory] the smaller of its configured integer (or 10) and
    [maxBuilds]. *)
Theorem limits_spec (config : JsonObject) :
  let maxBuilds :=
    if snd (GetInt64 config "maxBuilds") then fst (GetInt64 config "maxBuilds") else 10 in
  let maxHistory :=
    if snd (GetInt64 config "maxHistory") then fst (GetInt64 config "maxHistory") else 10 in
  Part000.limits config = (maxBuilds, Z.min maxHistory maxBuilds) /\
  snd (Part000.limits config) <= fst (Part000.limits config).
Proof.
  unfold Part000.limits.
  destruct (GetInt64 config "maxBuilds") as [maxBuilds ok].
  destruct (GetInt64 config "maxHistory") as [maxHistory ok']. simpl.
  destruct (Z.gtb_spec (if ok' then maxHistory else 10) (if ok then maxBuilds else 10));
    simpl; split; try lia; f_equal; lia.
Qed.

Lemma foldersLoop_spec name foldersArray folders :
  match foldersLoop name foldersArray folders with
  | Ok out =>
      exists strs, foldersArray = JString <$> strs /\
                   out = folders ++ ((fun f => f +:+ "api/json") <$> strs)
  | Err e =>
      exists strs f rest, foldersArray = (JString <$> strs) ++ f :: rest /\
                          asString f = None /\ e = invalidFolder name f
  end.
Proof.
  revert folders. induction foldersArray as [|f rest IH]; intros folders; simpl.
  - exists []. now rewrite app_nil_r.
  - destruct f as [|?|?|?|folder|?|?];
      try (eexists [], _, rest; repeat split; reflexivity).
    specialize (IH (folders ++ [folder +:+ "api/json"])).
    destruct (foldersLoop name rest (folders ++ [folder +:+ "api/json"])) as [out|e].
    + destruct IH as (strs & -> & ->). exists (folder :: strs). split; [reflexivity|].
      now rewrite <- app_assoc.
    + destruct IH as (strs & f & rest' & -> & Hf & ->).
      exists (folder :: strs), f, rest'. repeat split; assumption.
Qed.

Lemma excludeLoop_spec Compile name excludeArray exclude :
  match excludeLoop Compile name excludeArray exclude with
  | Ok out =>
      exists strs exs, excludeArray = JString <$> strs /\
                       Forall2 (fun estr ex => Compile estr = inl ex) strs exs /\
                       out = exclude ++ exs
  | Err e =>
      exists strs x rest, excludeArray = (JString <$> strs) ++ x :: rest /\
                          Forall (fun estr => compiles Compile estr = true) strs /\
                          match asString x with
                          | None => e = invalidExclude name x
                          | Some estr =>
                              exists err, Compile estr = inr err /\
                                          e = invalidExcludeRe name estr err
                          end
  end.
Proof.
  revert exclude. induction excludeArray as [|x rest IH]; intros exclude; simpl.
  - exists [], []. repeat split; [constructor|now rewrite app_nil_r].
  - destruct x as [|?|?|?|estr|?|?];
      try solve [eexists [], _, rest;
                 split; [reflexivity|split; [constructor|reflexivity]]].
    destruct (Compile estr) as [ex|err] eqn:Ec.
    + specialize (IH (exclude ++ [ex])).
      destruct (excludeLoop Compile name rest (exclude ++ [ex])) as [out|e].
      * destruct IH as (strs & exs & -> & HF & ->).
        exists (estr :: strs), (ex :: exs). repeat split.
        -- now constructor.
        -- now rewrite <- app_assoc.
      * destruct IH as (strs & x & rest' & -> & HF & Hx).
        exists (estr :: strs), x, rest'. repeat split; [|assumption].
        constructor; [|assumption]. unfold compiles. now rewrite Ec.
    + exists [], (JString estr), rest. repeat split; [constructor|]. simpl. eauto.
Qed.

Lemma ProcessInstanceObject_shape Compile instanceIf name (i : Instance) :
  ProcessInstanceObject Compile instanceIf name = Ok i ->
  Name i = name /\
  exists (o : JsonObject) strs,
    instanceIf = JObject o /\
    GetArray o "folders" = Some (JString <$> strs) /\
    Folders i = (fun f => f +:+ "api/json") <$> strs /\
    match GetArray o "exclude" with
    | Some excludeArray =>
        exists estrs, excludeArray = JString <$> estrs /\
                      Forall2 (fun estr ex => Compile estr = inl ex) estrs (Exclude i)
    | None => Exclude i = []
    end.
Proof.
  unfold ProcessInstanceObject.
  destruct instanceIf as [|?|?|?|?|?|o]; simpl; try discriminate.
  destruct (GetArray o "folders") as [foldersArray|] eqn:EF; [|discriminate].
  pose proof (foldersLoop_spec name foldersArray []) as HF.
  destruct (foldersLoop name foldersArray []) as [folders|e]; [|discriminate].
  destruct HF as (strs & -> & ->).
  destruct (GetArray o "exclude") as [excludeArray|] eqn:EE.
  - pose proof (excludeLoop_spec Compile name excludeArray []) as HE.
    destruct (excludeLoop Compile name excludeArray []) as [exclude|e]; [|discriminate].
    destruct HE as (estrs & exs & -> & HF2 & ->).
    intros [= <-]. simpl. split; [reflexivity|].
    exists o, strs. rewrite EF, EE.
    split; [reflexivity|]. split; [reflexivity|]. split; [reflexivity|].
    exists estrs. split; [reflexivity|assumption].
  - intros [= <-]. simpl. split; [reflexivity|].
    exists o, strs. rewrite EF, EE.
    split; [reflexivity|]. split; [reflexivity|]. split; reflexivity.
Qed.

(** X26: when [ProcessInstanceObject] succeeds, the instance carries the
    given name, one folder URL for each entry of [folders], in order, each
    being the configured string followed by ["api/json"], and one compiled
    expression for each entry of [exclude], in order; without an array
    [exclude] there is no exclusion. *)
Theorem ProcessInstanceObject_ok Compile instanceIf name (i : Instance) :
  ProcessInstanceObject Compile instanceIf name = Ok i ->
  Name i = name /\
  exists (o : JsonObject) strs,
    instanceIf = JObject o /\
    GetArray o "folders" = Some (JString <$> strs) /\
    Folders i = (fun f => f +:+ "api/json") <$> strs /\
    match GetArray o "exclude" with
    | Some excludeArray =>
        exists estrs, excludeArray = JString <$> estrs /\
                      Forall2 (fun estr ex => Compile estr = inl ex) estrs (Exclude i)
    | None => Exclude i = []
    end.
Proof. apply ProcessInstanceObject_shape. Qed.

Lemma ProcessInstanceObject_ok_witness :
  Name (mkInstance "ci" ["http://ci/view/api/json"] []) = "ci" /\
  exists (o : JsonObject) strs,
    exampleConfigEntry = JObject o /\
    GetArray o "folders" = Some (JString <$> strs) /\
    Folders (mkInstance "ci" ["http://ci/view/api/json"] [])
      = (fun f => f +:+ "api/json") <$> strs /\
    match GetArray o "exclude" with
    | Some excludeArray =>
        exists estrs, excludeArray = JString <$> estrs /\
                      Forall2 (fun estr ex => exampleCompile estr = inl ex) estrs
                        (Exclude (mkInstance "ci" ["http://ci/view/api/json"] []))
    | None => Exclude (mkInstance "ci" ["http://ci/view/api/json"] []) = []
    end.
Proof.
  apply (ProcessInstanceObject_ok exampleCompile exampleConfigEntry "ci"
           (mkInstance "ci" ["http://ci/view/api/json"] [])).
  vm_compute. reflexivity.
Defined.

Lemma forallb_strings (fs : list Json) :
  forallb (fun f => bool_decide (is_Some (asString f))) fs = true <->
  exists strs, fs = JString <$> strs.
Proof.
  induction fs as [|f fs IH]; simpl.
  - split; [now exists []|reflexivity].
  - rewrite andb_true_iff, IH. split.
    + intros [Hf [strs ->]]. destruct f; try discriminate. now exists (s :: strs).
    + intros [[|s strs] E]; [discriminate|]. injection E as -> ->. split; [reflexivity|eauto].
Qed.

Lemma ProcessInstanceObject_valid Compile instanceIf name :
  (exists i, ProcessInstanceObject Compile instanceIf name = Ok i) <->
  validInstance Compile instanceIf = true.
Proof.
  unfold ProcessInstanceObject, validInstance, GetArray.
  destruct instanceIf as [|?|?|?|?|?|o]; simpl; try (split; [intros [? [=]]|discriminate]).
  destruct (o !! "folders") as [[|?|?|?|?|fs|?]|];
    try (split; [intros [? [=]]|discriminate]).
  pose proof (foldersLoop_spec name fs []) as HF.
  rewrite andb_true_iff, forallb_strings.
  destruct (foldersLoop name fs []) as [folders|e].
  - destruct HF as (strs & -> & ->).
    assert (forall es,
              (exists i, match excludeLoop Compile name es [] with
                         | Ok exclude =>
                             Ok (mkInstance name ((fun f => f +:+ "api/json") <$> strs) exclude)
                         | Err e => Err e
                         end = Ok i) <->
              forallb (fun e => match asString e with
                                | Some estr => compiles Compile estr
                                | None => false
                                end) es = true) as Hex.
    { intros es. pose proof (excludeLoop_spec Compile name es []) as HE.
      destruct (excludeLoop Compile name es []) as [exclude|e].
      - destruct HE as (estrs & exs & -> & HF2 & _). split; [intros _|eauto].
        apply forallb_forall. intros x Hx. apply in_map_iff in Hx as (estr & <- & Hin).
        simpl. unfold compiles.
        apply list_elem_of_In, list_elem_of_lookup in Hin as [k Hk].
        destruct (Forall2_lookup_l _ _ _ _ _ HF2 Hk) as (ex & _ & ->). reflexivity.
      - destruct HE as (estrs & x & rest & -> & _ & Hx).
        split; [intros [? [=]]|]. intros Hall. exfalso.
        rewrite forallb_app in Hall. apply andb_true_iff in Hall as [_ Hall].
        simpl in Hall. apply andb_true_iff in Hall as [Hall _].
        destruct (asString x) as [estr|]; [|discriminate].
        destruct Hx as (err & Hc & _). unfold compiles in Hall. now rewrite Hc in Hall. }
    destruct (o !! "exclude") as [[|?|?|?|?|es|?]|];
      try (split; [intros _; split; [eauto|reflexivity]|intros _; eauto]).
    rewrite Hex. split; [intros H; split; [eauto|assumption]|now intros [_ H]].
  - destruct HF as (strs & f & rest & -> & Hf & _).
    split; [intros [? [=]]|]. intros [[strs' E] _]. exfalso.
    assert (forall (l1 : list string) l2, (JString <$> l1) ++ f :: rest = JString <$> l2 -> False)
      as Hno.
    { induction l1 as [|a l1 IH]; intros [|b l2]; simpl; try discriminate.
      - intros [= -> _]. discriminate.
      - intros [= _ E']. eauto. }
    eauto.
Qed.

(** X27: [ProcessInstanceObject] succeeds exactly on an object that has an
    array [folders] holding only strings and, if it has an array [exclude],
    only strings that compile in it; an [exclude] that is not an array is
    ignored. *)
Theorem ProcessInstanceObject_succeeds_iff Compile instanceIf name :
  (exists i, ProcessInstanceObject Compile instanceIf name = Ok i) <->
  validInstance Compile instanceIf = true.
Proof. apply ProcessInstanceObject_valid. Qed.




